(** * Data preprocessing workshop: the notebook code and its properties

    The workshop notebooks contain little code of their own: the helper
    [return_mileage], the binary-encoding lambda, and a handful of
    statements that call pandas and scikit-learn.  This file embeds that
    code over a small model of the Python values a DataFrame cell can
    hold, a backtracking model of [re.findall], and models of the few
    pandas / scikit-learn operations the statements call, each written
    from the behaviour the notebooks show and the libraries document. *)

From Stdlib Require Import String Ascii List ZArith QArith Bool Lia Permutation.
Import ListNotations.

Close Scope Q_scope.
Open Scope nat_scope.

(** ** Python values *)

Module Py.

(** A binary64 number is represented by the rational it denotes.  No
    arithmetic is done on floats in this file; [float] rounds the
    decimal it reads to the nearest of them. *)
Inductive pyfloat : Type :=
| NaN
| Inf (negative : bool)
| Fin (q : Q).

(** The objects a cell of a DataFrame read from CSV or JSON holds. *)
Inductive value : Type :=
| VNone
| VBool (b : bool)
| VInt (z : Z)
| VFloat (f : pyfloat)
| VStr (s : string).

Inductive exn : Type := IndexError | ValueError | KeyError | TypeError.

(** A call either returns or raises. *)
Inductive outcome (A : Type) : Type :=
| Ret (a : A)
| Raise (e : exn).

Arguments Ret {A} a.
Arguments Raise {A} e.

Definition bind {A B : Type} (m : outcome A) (k : A -> outcome B) : outcome B :=
  match m with
  | Ret a => k a
  | Raise e => Raise e
  end.

(** [isinstance(v, str)] *)
Definition isinstance_str (v : value) : bool :=
  match v with
  | VStr _ => true
  | _ => false
  end.

(** bool, int and float compare by numeric value. *)
Definition as_number (v : value) : option pyfloat :=
  match v with
  | VBool b => Some (Fin (if b then 1%Q else 0%Q))
  | VInt z => Some (Fin (inject_Z z))
  | VFloat f => Some f
  | _ => None
  end.

Definition float_eq (f g : pyfloat) : bool :=
  match f, g with
  | Fin p, Fin q => Qeq_bool p q
  | Inf a, Inf b => Bool.eqb a b
  | _, _ => false
  end.

(** [a == b] *)
Definition py_eq (a b : value) : bool :=
  match a, b with
  | VNone, VNone => true
  | VStr s, VStr t => String.eqb s t
  | _, _ =>
      match as_number a, as_number b with
      | Some x, Some y => float_eq x y
      | _, _ => false
      end
  end.

(** [pd.isna(v)]: None and NaN are the missing values. *)
Definition isna (v : value) : bool :=
  match v with
  | VNone => true
  | VFloat NaN => true
  | _ => false
  end.

Definition len {A : Type} (l : list A) : nat := length l.

End Py.

Export Py.

Declare Scope py_scope.
Notation "x <- m ;; k" := (bind m (fun x => k))
  (at level 61, m at next level, right associativity) : py_scope.
Open Scope py_scope.

(** ** Reading a decimal as a binary64 number *)

Module Binary64.

Local Open Scope Z_scope.

(** [n / d] rounded to the nearest integer, a tie to the even one. *)
Definition round_half_even (n d : Z) : Z :=
  let q := n / d in
  match 2 * (n mod d) ?= d with
  | Lt => q
  | Gt => q + 1
  | Eq => if Z.even q then q else q + 1
  end.

(** [num / den] over [2 ^ e], as a fraction of integers. *)
Definition scaled (num den e : Z) : Z * Z :=
  if 0 <=? e then (num, den * 2 ^ e) else (num * 2 ^ (- e), den).

(** The exponent of the last place: the one that leaves 53 significant
    bits, and no less than -1074 (where the subnormal numbers begin). *)
Definition exponent (num den : Z) : Z :=
  let e0 := Z.log2 num - Z.log2 den - 52 in
  let (n0, d0) := scaled num den e0 in
  let e1 := if n0 / d0 <? 2 ^ 52 then e0 - 1 else e0 in
  Z.max e1 (-1074).

(** [m * 2 ^ e] *)
Definition dyadic (m e : Z) : Q :=
  if 0 <=? e then inject_Z (m * 2 ^ e) else Qmake m (Z.to_pos (2 ^ (- e))).

(** The binary64 number nearest to [num / den] (for [0 <= num] and
    [0 < den]), ties to even; inf from [2 ^ 1024] on. *)
Definition binary64 (num den : Z) : pyfloat :=
  if num =? 0 then Fin 0
  else
    let e := exponent num den in
    let (n, d) := scaled num den e in
    let m := round_half_even n d in
    if (0 <=? e) && (2 ^ 1024 <=? m * 2 ^ e) then Inf false
    else Fin (Qred (dyadic m e)).

(** [f] is [num / den] correctly rounded: a finite [f] is [m * 2 ^ e]
    with at most 53 bits in [m], normalised or at the smallest
    exponent, below [2 ^ 1024], within half a unit of the last place
    of [num / den], and with [m] even when [num / den] lies in the
    middle of two such numbers; [f] is inf only from the middle between
    the largest finite number and [2 ^ 1024] on. *)
Definition rounds_to (num den : Z) (f : pyfloat) : Prop :=
  match f with
  | Fin q =>
      exists m e,
        q = Qred (dyadic m e) /\
        0 <= m <= 2 ^ 53 /\ -1074 <= e /\
        (2 ^ 52 <= m \/ e = -1074) /\
        (0 <= e -> m * 2 ^ e < 2 ^ 1024) /\
        Z.abs (2 * (m * snd (scaled num den e) - fst (scaled num den e)))
          <= snd (scaled num den e) /\
        (Z.abs (2 * (m * snd (scaled num den e) - fst (scaled num den e)))
           = snd (scaled num den e) -> Z.even m = true)
  | Inf false => (2 ^ 1024 - 2 ^ 970) * den <= num
  | _ => False
  end.

End Binary64.

(** ** Regular expressions: the fragment of [re] the notebooks use *)

Module Re.

Section Engine.

Context {A : Type}.

(** Character classes, sequencing and the greedy [+]. *)
Inductive regex : Type :=
| Class (p : A -> bool)
| Cat (r1 r2 : regex)
| Plus (r : regex).

(** The texts a pattern accepts. *)
Inductive Matches : regex -> list A -> Prop :=
| MClass : forall p c, p c = true -> Matches (Class p) [c]
| MCat : forall r1 r2 u v,
    Matches r1 u -> Matches r2 v -> Matches (Cat r1 r2) (u ++ v)
| MPlus1 : forall r u, Matches r u -> Matches (Plus r) u
| MPlusS : forall r u v,
    Matches r u -> Matches (Plus r) v -> Matches (Plus r) (u ++ v).

(** One more round of a greedy repetition: after a match of the body
    first try to repeat, then stop.  [n] bounds the number of rounds. *)
Fixpoint plus_ends (step : list A -> list (list A)) (n : nat) (s : list A)
  : list (list A) :=
  match n with
  | O => []
  | S n' => flat_map (fun t => plus_ends step n' t ++ [t]) (step s)
  end.

(** [ends r s]: what is left of [s] after each way of matching [r] at its
    start, in the order a backtracking matcher tries them. *)
Fixpoint ends (r : regex) (s : list A) : list (list A) :=
  match r with
  | Class p =>
      match s with
      | c :: t => if p c then [t] else []
      | [] => []
      end
  | Cat r1 r2 => flat_map (ends r2) (ends r1 s)
  | Plus r' => plus_ends (ends r') (length s) s
  end.

(** The match found at the start of [s], with the rest of [s]. *)
Definition match_prefix (r : regex) (s : list A) : option (list A * list A) :=
  match ends r s with
  | t :: _ => Some (firstn (length s - length t) s, t)
  | [] => None
  end.

(** Scan from left to right; after a match resume at its end, otherwise
    move one character on. *)
Fixpoint findall_from (n : nat) (r : regex) (s : list A) : list (list A) :=
  match n with
  | O => []
  | S n' =>
      match match_prefix r s with
      | Some (m, t) => m :: findall_from n' r t
      | None =>
          match s with
          | [] => []
          | _ :: s' => findall_from n' r s'
          end
      end
  end.

Definition findall_list (r : regex) (s : list A) : list (list A) :=
  findall_from (S (length s)) r s.

End Engine.

Arguments regex A : clear implicits.

(** [\d] on text whose code points are below 256: the decimal digits there
    are 0 to 9. *)
Definition is_digit (c : ascii) : bool :=
  (Ascii.leb "0" c && Ascii.leb c "9")%bool.

Definition is_char (a c : ascii) : bool := Ascii.eqb a c.

(** [re.findall(pattern, string)] for a pattern without groups. *)
Definition findall (pattern : regex ascii) (s : string) : list string :=
  map string_of_list_ascii (findall_list pattern (list_ascii_of_string s)).

End Re.

(** ** The notebook: feature engineering *)

Module Notebook.

Import Re.

(** [re.compile(r"\d+\.\d+")] *)
Definition pattern : regex ascii :=
  Cat (Plus (Class is_digit)) (Cat (Class (is_char ".")) (Plus (Class is_digit))).

Definition digit_value (c : ascii) : N := (N_of_ascii c - 48)%N.

(** The number a run of digits denotes; [None] when the run is empty or
    holds another character. *)
Fixpoint digits_from (acc : N) (l : list ascii) : option N :=
  match l with
  | [] => Some acc
  | c :: l' =>
      if is_digit c then digits_from (acc * 10 + digit_value c)%N l' else None
  end.

Definition decimal (l : list ascii) : option N :=
  match l with
  | [] => None
  | _ => digits_from 0%N l
  end.

Fixpoint split_dot (l : list ascii) : option (list ascii * list ascii) :=
  match l with
  | [] => None
  | c :: l' =>
      if is_char "." c then Some ([], l')
      else match split_dot l' with
           | Some (a, b) => Some (c :: a, b)
           | None => None
           end
  end.

(** [float(s)] on the texts that reach it here, digits "." digits: the
    decimal is rounded to the nearest binary64 number, ties to even,
    and is inf when it is too large.  The other spellings [float]
    accepts (sign, exponent, inf, nan, blanks) are not covered: the model
    answers ValueError for them, and [float_of_match] shows that no match
    of [pattern] is one of them. *)
Definition float (s : string) : outcome pyfloat :=
  match split_dot (list_ascii_of_string s) with
  | Some (ip, fp) =>
      match decimal ip, decimal fp with
      | Some a, Some b =>
          let scale := (10 ^ Z.of_nat (length fp))%Z in
          Ret (Binary64.binary64 (Z.of_N a * scale + Z.of_N b) scale)
      | _, _ => Raise ValueError
      end
  | None => Raise ValueError
  end.

(** [mile[0]] *)
Definition item0 {A : Type} (l : list A) : outcome A :=
  match l with
  | x :: _ => Ret x
  | [] => Raise IndexError
  end.

(**
<<
def return_mileage(length):
    if isinstance(length, str):
        pattern = re.compile(r"\d+\.\d+")
        mile = re.findall(pattern, length)
        if len(mile) == 1:
            return float(mile[0])
    else:
        return 0
>>
    A call that reaches the end of the body returns None. *)
Definition return_mileage (length : value) : outcome value :=
  match length with
  | VStr s =>
      let mile := findall pattern s in
      if Nat.eqb (len mile) 1 then
        m <- item0 mile ;;
        f <- float m ;;
        Ret (VFloat f)
      else Ret VNone
  | _ => Ret (VInt 0)
  end.

(** [lambda val: 1 if val == "Y" else 0] *)
Definition Accessible_enc (val : value) : value :=
  if py_eq val (VStr "Y") then VInt 1 else VInt 0.

End Notebook.

(** ** pandas: Series and DataFrame

    The operations the notebooks call, as pandas documents them.  Labels
    (row labels and column names) are Python values.  A column holds its
    values as the objects they are: the conversion of a column to one
    dtype (an int 0 among floats becoming 0.0) is not modelled. *)

Module Pandas.

Record Series : Type := mkSeries {
  s_index : list value;
  s_values : list value
}.

(** Columns are kept in their order, each with its name. *)
Record DataFrame : Type := mkFrame {
  index : list value;
  columns : list (value * list value)
}.

(** Labels are compared with [==], and two missing labels are the same
    label. *)
Definition label_eq (a b : value) : bool :=
  py_eq a b || (isna a && isna b).

Definition is_label (name : value) (c : value * list value) : bool :=
  label_eq (fst c) name.

Definition labels (df : DataFrame) : list value := map fst (columns df).

Definition has_column (name : value) (df : DataFrame) : bool :=
  existsb (is_label name) (columns df).

Fixpoint lookup (name : value) (cols : list (value * list value))
  : option (list value) :=
  match cols with
  | [] => None
  | c :: cols' => if is_label name c then Some (snd c) else lookup name cols'
  end.

(** [df[name]] for a frame whose column names are distinct: the column
    with the frame's index, KeyError when there is none. *)
Definition getitem (df : DataFrame) (name : value) : outcome Series :=
  match lookup name (columns df) with
  | Some vs => Ret (mkSeries (index df) vs)
  | None => Raise KeyError
  end.

Fixpoint mapM {A B : Type} (f : A -> outcome B) (l : list A) : outcome (list B) :=
  match l with
  | [] => Ret []
  | x :: l' =>
      y <- f x ;;
      ys <- mapM f l' ;;
      Ret (y :: ys)
  end.

(** [s.apply(f)]: [f] on every value in order, the index kept; the first
    exception [f] raises ends the call. *)
Definition apply (f : value -> outcome value) (s : Series) : outcome Series :=
  vs <- mapM f (s_values s) ;;
  Ret (mkSeries (s_index s) vs).

Fixpoint index_equals (a b : list value) : bool :=
  match a, b with
  | [], [] => true
  | x :: a', y :: b' => label_eq x y && index_equals a' b'
  | _, _ => false
  end.

Fixpoint has_duplicates (l : list value) : bool :=
  match l with
  | [] => false
  | x :: l' => existsb (label_eq x) l' || has_duplicates l'
  end.

Fixpoint value_at (l : value) (idx vals : list value) : value :=
  match idx, vals with
  | i :: idx', v :: vals' => if label_eq i l then v else value_at l idx' vals'
  | _, _ => VFloat NaN
  end.

(** The values of [s] laid out along [idx]: as they are when the two
    indexes are equal, else looked up label by label, NaN where [s] has
    no such label; reindexing a Series whose labels repeat is an error. *)
Definition align (idx : list value) (s : Series) : outcome (list value) :=
  if index_equals (s_index s) idx then Ret (s_values s)
  else if has_duplicates (s_index s) then Raise ValueError
  else Ret (map (fun l => value_at l (s_index s) (s_values s)) idx).

(** Replace the column called [name], or append it as the last column. *)
Definition set_column (name : value) (vals : list value)
  (cols : list (value * list value)) : list (value * list value) :=
  if existsb (is_label name) cols
  then map (fun c => if is_label name c then (fst c, vals) else c) cols
  else cols ++ [(name, vals)].

(** [df[name] = s] for a Series [s].  A frame without rows takes the
    index of a non-empty [s] (its columns are then filled with NaN);
    otherwise [s] is aligned to the frame's index. *)
Definition setitem (df : DataFrame) (name : value) (s : Series)
  : outcome DataFrame :=
  match index df, s_index s with
  | [], _ :: _ =>
      let blank := map (fun c => (fst c, map (fun _ => VFloat NaN) (s_index s)))
                       (columns df) in
      Ret (mkFrame (s_index s) (set_column name (s_values s) blank))
  | _, _ =>
      vals <- align (index df) s ;;
      Ret (mkFrame (index df) (set_column name vals (columns df)))
  end.

(** [df.iloc[i]]: the cells of row [i], each under its column name. *)
Definition row_at (i : nat) (df : DataFrame) : list (value * option value) :=
  map (fun c => (fst c, nth_error (snd c) i)) (columns df).

(** [df.drop(label, axis=1)]: every column of that name goes; KeyError
    when there is none. *)
Definition drop (label : value) (df : DataFrame) : outcome DataFrame :=
  if has_column label df
  then Ret (mkFrame (index df)
                    (filter (fun c => negb (is_label label c)) (columns df)))
  else Raise KeyError.

(** First occurrences, in order of appearance. *)
Fixpoint unique (l : list value) : list value :=
  match l with
  | [] => []
  | x :: l' => x :: filter (fun y => negb (py_eq y x)) (unique l')
  end.

Definition float_leb (f g : pyfloat) : bool :=
  match f, g with
  | Fin p, Fin q => Qle_bool p q
  | Inf true, _ => true
  | _, Inf false => true
  | _, _ => false
  end.

(** The order used to sort category values: numbers by value, then
    strings by code point. *)
Definition value_leb (a b : value) : bool :=
  match as_number a, as_number b with
  | Some x, Some y => float_leb x y
  | Some _, None => true
  | None, Some _ => false
  | None, None =>
      match a, b with
      | VStr s, VStr t => String.leb s t
      | VStr _, _ => true
      | _, _ => false
      end
  end.

Fixpoint insert_sorted (x : value) (l : list value) : list value :=
  match l with
  | [] => [x]
  | y :: l' => if value_leb x y then x :: l else y :: insert_sorted x l'
  end.

Fixpoint sort_values (l : list value) : list value :=
  match l with
  | [] => []
  | x :: l' => insert_sorted x (sort_values l')
  end.

(** The categories of a Series: its distinct values that are not
    missing, sorted. *)
Definition categories (s : Series) : list value :=
  sort_values (unique (filter (fun v => negb (isna v)) (s_values s))).

Definition indicator (c v : value) : value :=
  if py_eq v c then VInt 1 else VInt 0.

(** [pd.get_dummies(s)]: one indicator column per category, named by it,
    on the index of [s]. *)
Definition get_dummies (s : Series) : DataFrame :=
  mkFrame (s_index s)
          (map (fun c => (c, map (indicator c) (s_values s))) (categories s)).

Section Corr.

(** The correlation coefficient of two columns: a binary64 computation,
    kept abstract. *)
Variable pearson : list value -> list value -> value.

(** [df.corr()]: the table of pairwise coefficients, rows and columns
    both labelled by the column names of [df]. *)
Definition corr (df : DataFrame) : DataFrame :=
  mkFrame (labels df)
          (map (fun b => (fst b, map (fun a => pearson (snd a) (snd b)) (columns df)))
               (columns df)).

End Corr.

(** The rows of a column whose label passes [keep]. *)
Fixpoint select_rows (keep : value -> bool) (idx vals : list value) : list value :=
  match idx, vals with
  | i :: idx', v :: vals' =>
      if keep i then v :: select_rows keep idx' vals'
      else select_rows keep idx' vals'
  | _, _ => []
  end.

(** [m.loc[rows, cols]] with both axes restricted to the labels that
    pass [keep]. *)
Definition submatrix (keep : value -> bool) (m : DataFrame) : DataFrame :=
  mkFrame (filter keep (index m))
          (map (fun c => (fst c, select_rows keep (index m) (snd c)))
               (filter (fun c => keep (fst c)) (columns m))).

End Pandas.

(** ** scikit-learn: LabelEncoder *)

Module Sklearn.

Import Pandas.

Record LabelEncoder : Type := mkLabelEncoder { classes_ : list value }.

Definition is_number (v : value) : bool :=
  match v with
  | VBool _ | VInt _ | VFloat (Fin _) => true
  | _ => false
  end.

(** The labels must be all strings or all numbers; missing labels,
    which later releases sort after the others, are not modelled and
    are answered as a mix of types is. *)
Definition uniform (y : list value) : bool :=
  forallb isinstance_str y || forallb is_number y.

(** [fit(y)]: the classes are the distinct labels, sorted. *)
Definition fit (y : list value) : outcome LabelEncoder :=
  if uniform y then Ret (mkLabelEncoder (sort_values (unique y)))
  else Raise TypeError.

Fixpoint position (v : value) (l : list value) : option nat :=
  match l with
  | [] => None
  | x :: l' =>
      if py_eq v x then Some O
      else match position v l' with
           | Some i => Some (S i)
           | None => None
           end
  end.

(** [transform(y)]: every label becomes its position among the classes;
    a label that is not a class is an error. *)
Definition transform (le : LabelEncoder) (y : list value) : outcome (list value) :=
  mapM (fun v => match position v (classes_ le) with
                 | Some i => Ret (VInt (Z.of_nat i))
                 | None => Raise ValueError
                 end) y.

Definition fit_transform (y : list value) : outcome (list value) :=
  le <- fit y ;;
  transform le y.

End Sklearn.

(** ** The notebook statements that add or remove columns *)

Module Cells.

Import Re Notebook Pandas Sklearn.

(** [df[new] = df[src].apply(lambda x: f(x))] *)
Definition derive (f : value -> outcome value) (src new : value) (df : DataFrame)
  : outcome DataFrame :=
  col <- getitem df src ;;
  s <- apply (fun row => f row) col ;;
  setitem df new s.

(** [hiking["Length Mileage"] = hiking["Length"].apply(lambda row: return_mileage(row))] *)
Definition add_length_mileage (hiking : DataFrame) : outcome DataFrame :=
  derive return_mileage (VStr "Length") (VStr "Length Mileage") hiking.

(** [hiking["Accessible_enc"] = hiking["Accessible"].apply(lambda val: 1 if val == "Y" else 0)] *)
Definition add_accessible_enc (hiking : DataFrame) : outcome DataFrame :=
  derive (fun val => Ret (Accessible_enc val))
         (VStr "Accessible") (VStr "Accessible_enc") hiking.

(** [wine_subset = wine_subset.drop(c, axis=1)] followed by
    [wine_subset.corr()] *)
Definition drop_then_corr (pearson : list value -> list value -> value)
  (c : value) (wine_subset : DataFrame) : outcome DataFrame :=
  wine_subset' <- drop c wine_subset ;;
  Ret (corr pearson wine_subset').

End Cells.

Import Re Notebook Pandas Sklearn Cells.

(** The head of the hiking data as the notebook prints it, with a row
    whose entries are missing. *)
Definition hiking_head : DataFrame :=
  mkFrame [VInt 0; VInt 1; VInt 2; VInt 3; VInt 4; VInt 5]
    [ (VStr "Length",
       [VStr "0.8 miles"; VStr "1.0 mile"; VStr "0.75 miles";
        VStr "0.5 miles"; VStr "0.5 miles"; VFloat NaN]);
      (VStr "Accessible",
       [VStr "Y"; VStr "N"; VStr "N"; VStr "N"; VStr "N"; VFloat NaN]) ].

(** [pd.Series(["blue", "red", "green", "red"])] *)
Definition color_ex : Series :=
  mkSeries [VInt 0; VInt 1; VInt 2; VInt 3]
           [VStr "blue"; VStr "red"; VStr "green"; VStr "red"].

(** Three columns in the manner of the wine data. *)
Definition wine_sample : DataFrame :=
  mkFrame [VInt 0; VInt 1; VInt 2]
    [ (VStr "Flavanoids", [VFloat (Fin 3.06); VFloat (Fin 2.76); VFloat (Fin 3.24)]);
      (VStr "Total phenols", [VFloat (Fin 2.8); VFloat (Fin 2.65); VFloat (Fin 2.8)]);
      (VStr "Hue", [VFloat (Fin 1.04); VFloat (Fin 1.05); VFloat (Fin 1.03)]) ].

(** A stand-in for the coefficient: whether two columns are the same
    list of numbers. *)
Definition same_column (a b : list value) : value :=
  VBool (index_equals a b).

(** [n] nines in a row. *)
Definition nines (n : nat) : string :=
  string_of_list_ascii (repeat "9"%char n).

Definition all_digits (l : list ascii) : Prop :=
  Forall (fun c => is_digit c = true) l.

(** A value of a column that holds only "N" and "Y". *)
Definition is_YN (v : value) : Prop := v = VStr "N" \/ v = VStr "Y".

(** ** More of pandas: construction, selection, row aggregates *)

Module Frames.

Import Pandas.

(** Every column has one value per row. *)
Definition well_formed (df : DataFrame) : bool :=
  forallb (fun c => Nat.eqb (length (snd c)) (length (index df))) (columns df).

(** [RangeIndex(n)] *)
Definition range_index (n : nat) : list value :=
  map (fun i => VInt (Z.of_nat i)) (seq 0 n).

(** [pd.DataFrame(d)] for a dict of lists, its items in insertion order:
    the lists must all have the same length; the rows are numbered
    from 0. *)
Definition DataFrame_of_dict (d : list (value * list value)) : outcome DataFrame :=
  match d with
  | [] => Ret (mkFrame [] [])
  | (_, vs) :: _ =>
      if forallb (fun c => Nat.eqb (length (snd c)) (length vs)) d
      then Ret (mkFrame (range_index (length vs)) d)
      else Raise ValueError
  end.

(** [df.drop(labels, axis=1)] with a list of labels: KeyError when one
    of them names no column. *)
Definition drop_list (ls : list value) (df : DataFrame) : outcome DataFrame :=
  if forallb (fun l => has_column l df) ls
  then Ret (mkFrame (index df)
              (filter (fun c => negb (existsb (fun l => is_label l c) ls))
                      (columns df)))
  else Raise KeyError.

(** [df[[names]]]: the columns of each name, in the order of the list;
    KeyError when one of them names no column. *)
Definition select (names : list value) (df : DataFrame) : outcome DataFrame :=
  if forallb (fun n => has_column n df) names
  then Ret (mkFrame (index df)
              (flat_map (fun n => filter (is_label n) (columns df)) names))
  else Raise KeyError.

Definition is_numeric (v : value) : bool :=
  match v with
  | VBool _ | VInt _ | VFloat _ => true
  | _ => false
  end.

(** The columns of a numeric dtype. *)
Definition numeric_columns (df : DataFrame) : list (value * list value) :=
  filter (fun c => forallb is_numeric (snd c)) (columns df).

(** The numeric cells of row [i], in column order. *)
Definition numeric_row (i : nat) (df : DataFrame) : list value :=
  map (fun c => nth i (snd c) (VFloat NaN)) (numeric_columns df).

(** [df.mean(axis=1)], [df.median(axis=1)], [df.sum(axis=1)],
    [df.min(axis=1)] on a frame that also has a text column, as the
    notebook's outputs show them: the aggregate [agg] of the numeric
    cells of every row, on the frame's index.  The aggregate itself is a
    binary64 computation and is a parameter. *)
Definition aggregate_rows (agg : list value -> value) (df : DataFrame) : Series :=
  mkSeries (index df)
           (map (fun i => agg (numeric_row i df)) (seq 0 (length (index df)))).

End Frames.

(** ** Aggregates in exact arithmetic

    Stand-ins for the binary64 aggregates, used to run the model on the
    notebook's data: missing values are skipped. *)

Module Exact.

Definition number (v : value) : list Q :=
  match as_number v with
  | Some (Fin q) => [q]
  | _ => []
  end.

Definition numbers (l : list value) : list Q := flat_map number l.

Definition q_sum (l : list Q) : Q := fold_left Qplus l 0%Q.

Fixpoint q_insert (x : Q) (l : list Q) : list Q :=
  match l with
  | [] => [x]
  | y :: l' => if Qle_bool x y then x :: l else y :: q_insert x l'
  end.

Definition q_sort (l : list Q) : list Q := fold_right q_insert [] l.

Definition finite (q : Q) : value := VFloat (Fin (Qred q)).

Definition exact_sum (l : list value) : value := finite (q_sum (numbers l)).

Definition exact_mean (l : list value) : value :=
  match numbers l with
  | [] => VFloat NaN
  | qs => finite (q_sum qs / inject_Z (Z.of_nat (length qs)))
  end.

Definition exact_median (l : list value) : value :=
  let qs := q_sort (numbers l) in
  let n := length qs in
  match qs with
  | [] => VFloat NaN
  | _ =>
      if Nat.even n
      then finite ((nth (n / 2 - 1) qs 0 + nth (n / 2) qs 0) / 2)%Q
      else finite (nth (n / 2) qs 0%Q)
  end.

Definition exact_min (l : list value) : value :=
  match q_sort (numbers l) with
  | [] => VFloat NaN
  | q :: _ => finite q
  end.

End Exact.

(** ** More notebook statements *)

Module Statements.

Import Re Notebook Pandas Frames.

(** [temperature_num = float(re.findall(pattern, temp_string)[0])] with
    [pattern = re.compile("\d+\.\d+")] *)
Definition temperature_num (temp_string : string) : outcome pyfloat :=
  m <- item0 (findall pattern temp_string) ;;
  float m.

(** [wine_X = wine.drop("Type", axis=1)] and [y = wine["Type"]] *)
Definition split_X_y (label : value) (df : DataFrame)
  : outcome (DataFrame * Series) :=
  X <- drop label df ;;
  y <- getitem df label ;;
  Ret (X, y).

(** [wine_subset = wine[[...]]] followed by
    [wine_subset = wine_subset.drop(c, axis=1)] *)
Definition select_then_drop (names : list value) (c : value) (wine : DataFrame)
  : outcome DataFrame :=
  wine_subset <- select names wine ;;
  drop c wine_subset.

(** Dropping the labels of a list one statement at a time. *)
Definition drop_each (ls : list value) (df : DataFrame) : outcome DataFrame :=
  fold_left (fun acc l => df' <- acc ;; drop l df') ls (Ret df).

(**
<<
running_times_5k["mean"] = running_times_5k.mean(axis=1)
running_times_5k["median"] = running_times_5k.median(axis=1)
running_times_5k["total"] = running_times_5k.sum(axis=1)
running_times_5k["fastest_time"] = running_times_5k.min(axis=1)
>>
*)
Definition add_running_stats
  (mean median total fastest : list value -> value)
  (running_times_5k : DataFrame) : outcome DataFrame :=
  df1 <- setitem running_times_5k (VStr "mean")
                 (aggregate_rows mean running_times_5k) ;;
  df2 <- setitem df1 (VStr "median") (aggregate_rows median df1) ;;
  df3 <- setitem df2 (VStr "total") (aggregate_rows total df2) ;;
  setitem df3 (VStr "fastest_time") (aggregate_rows fastest df3).

(** What the four statements compute, row by row: each aggregate is
    taken over the numeric cells of the row as they are when its
    statement runs. *)
Definition stats_columns
  (mean median total fastest : list value -> value) (df : DataFrame)
  : list (value * list value) :=
  let rows := seq 0 (length (index df)) in
  let m i := mean (numeric_row i df) in
  let d i := median (numeric_row i df ++ [m i]) in
  let t i := total (numeric_row i df ++ [m i; d i]) in
  let f i := fastest (numeric_row i df ++ [m i; d i; t i]) in
  [ (VStr "mean", map m rows); (VStr "median", map d rows);
    (VStr "total", map t rows); (VStr "fastest_time", map f rows) ].

End Statements.

Import Frames Exact Statements.

(** [running_dict] *)
Definition running_dict : list (value * list value) :=
  let fl := map (fun q => VFloat (Fin q)) in
  [ (VStr "name", [VStr "Sue"; VStr "Mark"; VStr "Sean"; VStr "Erin";
                   VStr "Jenny"; VStr "Russell"]);
    (VStr "run1", fl [20.1; 16.5; 23.5; 21.7; 25.8; 30.9]%Q);
    (VStr "run2", fl [18.5; 17.1; 25.1; 21.1; 27.1; 29.6]%Q);
    (VStr "run3", fl [19.6; 16.9; 25.2; 20.9; 26.1; 31.4]%Q);
    (VStr "run4", fl [20.3; 17.6; 24.6; 22.1; 26.7; 30.4]%Q);
    (VStr "run5", fl [18.3; 17.3; 23.9; 22.2; 26.9; 29.9]%Q) ].

(** [running_times_5k = pd.DataFrame(running_dict)] *)
Definition running_times_5k : DataFrame :=
  mkFrame (range_index 6) running_dict.

(** A series with a missing entry. *)
Definition color_missing : Series :=
  mkSeries [VInt 0; VInt 1; VInt 2] [VStr "blue"; VFloat NaN; VStr "red"].

(** The columns named in the first cell of the feature-selection
    notebook, on a frame of two rows. *)
Definition volunteer_sample : DataFrame :=
  mkFrame [VInt 0; VInt 1]
    [ (VStr "title", [VStr "Tutoring"; VStr "Cleanup"]);
      (VStr "Latitude", [VFloat NaN; VFloat NaN]);
      (VStr "Longitude", [VFloat NaN; VFloat NaN]);
      (VStr "category_desc", [VStr "Education"; VStr "Environment"]);
      (VStr "locality", [VStr "New York"; VStr "Brooklyn"]);
      (VStr "postalcode", [VInt 10001; VInt 11201]) ].

(** Whether three characters in a row are a digit, a dot and a digit. *)
Fixpoint has_window (l : list ascii) : bool :=
  match l with
  | [] => false
  | c1 :: t =>
      match t with
      | d :: c2 :: _ =>
          (is_digit c1 && is_char "." d && is_digit c2) || has_window t
      | _ => false
      end
  end.


(** No two labels of the list are the same label. *)
Fixpoint distinct_labels (ls : list value) : bool :=
  match ls with
  | [] => true
  | l :: ls' => negb (existsb (label_eq l) ls') && distinct_labels ls'
  end.

(** ** The matcher against the language of a pattern *)

Section MatcherFacts.

Context {A : Type}.

Implicit Types (r : regex A) (s t m : list A).

Lemma Matches_nonempty r m : Matches r m -> m <> [].
Proof.
  induction 1 as [p c Hc | r1 r2 u v _ IHu _ _ | r u _ IHu | r u v _ IHu _ _].
  - discriminate.
  - intros E. apply app_eq_nil in E. tauto.
  - exact IHu.
  - intros E. apply app_eq_nil in E. tauto.
Qed.

Lemma plus_ends_mono (step : list A -> list (list A)) n n' s t :
  n <= n' -> In t (plus_ends step n s) -> In t (plus_ends step n' s).
Proof.
  revert n' s t.
  induction n as [| n IH]; intros n' s t Hle Hin; [contradiction |].
  destruct n' as [| n']; [lia |].
  simpl in *. apply in_flat_map in Hin. destruct Hin as (x & Hx & Hin).
  apply in_flat_map. exists x. split; [exact Hx |].
  apply in_app_or in Hin. apply in_or_app.
  destruct Hin as [Hin | Hin]; [left | right; exact Hin].
  apply IH; [lia | exact Hin].
Qed.

(** Every remainder the matcher reports is what a non-empty accepted
    prefix leaves. *)
Lemma ends_sound r : forall s t,
  In t (ends r s) -> exists m, s = m ++ t /\ Matches r m.
Proof.
  induction r as [p | r1 IH1 r2 IH2 | r IH]; intros s t Hin.
  - destruct s as [| c s']; simpl in Hin; [contradiction |].
    destruct (p c) eqn:Hc; simpl in Hin; [| contradiction].
    destruct Hin as [<- | []]. exists [c]. split; [reflexivity |].
    constructor. exact Hc.
  - simpl in Hin. apply in_flat_map in Hin. destruct Hin as (x & Hx & Hin).
    destruct (IH1 _ _ Hx) as (u & -> & Hu).
    destruct (IH2 _ _ Hin) as (v & -> & Hv).
    exists (u ++ v). split; [now rewrite app_assoc | now constructor].
  - simpl in Hin. revert Hin. generalize (length s) as n. intros n. revert s t.
    induction n as [| n IHn]; intros s t Hin; [contradiction |].
    simpl in Hin. apply in_flat_map in Hin. destruct Hin as (x & Hx & Hin).
    destruct (IH _ _ Hx) as (u & -> & Hu).
    apply in_app_or in Hin. destruct Hin as [Hin | [<- | []]].
    + destruct (IHn _ _ Hin) as (v & -> & Hv).
      exists (u ++ v). split; [now rewrite app_assoc |].
      now apply MPlusS.
    + exists u. split; [reflexivity | now apply MPlus1].
Qed.

(** Every accepted prefix is found. *)
Lemma ends_complete r m :
  Matches r m -> forall t, In t (ends r (m ++ t)).
Proof.
  induction 1 as [p c Hc | r1 r2 u v _ IHu _ IHv | r u Hu IHu
                 | r u v Hu IHu Hv IHv]; intros t.
  - simpl. rewrite Hc. now left.
  - simpl. apply in_flat_map. exists (v ++ t). split.
    + rewrite <- app_assoc. apply IHu.
    + apply IHv.
  - simpl. apply Matches_nonempty in Hu.
    destruct u as [| c u]; [congruence |]. simpl length.
    simpl plus_ends. apply in_flat_map. exists t. split.
    + apply (IHu t).
    + apply in_or_app. right. now left.
  - simpl. apply Matches_nonempty in Hu.
    destruct u as [| c u]; [congruence |].
    rewrite <- app_assoc. simpl length. simpl plus_ends.
    apply in_flat_map. exists (v ++ t). split.
    + apply (IHu (v ++ t)).
    + apply in_or_app. left.
      apply plus_ends_mono with (n := length (v ++ t)).
      * rewrite !length_app. lia.
      * apply (IHv t).
Qed.

Lemma ends_shorter r s t : In t (ends r s) -> length t < length s.
Proof.
  intros H. destruct (ends_sound r s t H) as (m & -> & Hm).
  apply Matches_nonempty in Hm. destruct m; [congruence |].
  simpl. rewrite length_app. lia.
Qed.

Lemma flat_map_ext_in {B C : Type} (f g : B -> list C) (l : list B) :
  (forall x, In x l -> f x = g x) -> flat_map f l = flat_map g l.
Proof.
  induction l as [| x l IH]; intros H; simpl; [reflexivity |].
  rewrite (H x) by now left. f_equal. apply IH. intros y Hy. apply H. now right.
Qed.

(** A greedy repetition never runs out of rounds: every round consumes a
    character, so any bound from the length of the text on gives the
    same remainders in the same order. *)
Lemma plus_ends_enough r : forall n n' s,
  length s <= n -> length s <= n' ->
  plus_ends (ends r) n s = plus_ends (ends r) n' s.
Proof.
  assert (Hnil : forall k, plus_ends (ends r) k [] = []).
  { intros [| k]; [reflexivity |]. simpl.
    destruct (ends r []) as [| t l] eqn:E; [reflexivity |].
    assert (H : In t (ends r [])) by (rewrite E; now left).
    apply ends_shorter in H. simpl in H. lia. }
  induction n as [| n IH]; intros n' s Hn Hn'.
  - destruct s; [| simpl in Hn; lia]. now rewrite !Hnil.
  - destruct n' as [| n'].
    + destruct s; [| simpl in Hn'; lia]. now rewrite !Hnil.
    + simpl. apply flat_map_ext_in. intros t Ht.
      apply ends_shorter in Ht. f_equal. apply IH; lia.
Qed.

Lemma match_prefix_some r s m t :
  match_prefix r s = Some (m, t) -> s = m ++ t /\ Matches r m.
Proof.
  unfold match_prefix. destruct (ends r s) as [| t' l] eqn:E; [discriminate |].
  intros H. injection H as <- <-.
  destruct (ends_sound r s t') as (u & -> & Hu); [rewrite E; now left |].
  rewrite length_app, Nat.add_sub, firstn_app, Nat.sub_diag, firstn_all.
  simpl. rewrite app_nil_r. auto.
Qed.

Lemma match_prefix_none r s :
  match_prefix r s = None <-> (forall m t, s = m ++ t -> ~ Matches r m).
Proof.
  unfold match_prefix. split.
  - destruct (ends r s) as [| t' l] eqn:E; [| discriminate].
    intros _ m t -> Hm. pose proof (ends_complete r m Hm t) as Hin.
    rewrite E in Hin. contradiction.
  - intros H. destruct (ends r s) as [| t' l] eqn:E; [reflexivity |].
    destruct (ends_sound r s t') as (u & Hs & Hu); [rewrite E; now left |].
    exfalso. exact (H _ _ Hs Hu).
Qed.

(** The scan never runs out of rounds: any bound above the length of the
    text gives the same list. *)
Lemma findall_from_enough r : forall n n' s,
  length s < n -> length s < n' -> findall_from n r s = findall_from n' r s.
Proof.
  induction n as [| n IH]; intros n' s Hn Hn'; [lia |].
  destruct n' as [| n']; [lia |].
  simpl. destruct (match_prefix r s) as [[m t] |] eqn:E.
  - apply match_prefix_some in E. destruct E as [-> Hm].
    apply Matches_nonempty in Hm. destruct m as [| c m]; [congruence |].
    simpl in Hn, Hn'. rewrite length_app in Hn, Hn'.
    f_equal. apply IH; lia.
  - destruct s as [| c s']; [reflexivity |]. simpl in Hn, Hn'. apply IH; lia.
Qed.

Lemma findall_list_step r s :
  findall_list r s =
  match match_prefix r s with
  | Some (m, t) => m :: findall_list r t
  | None => match s with
            | [] => []
            | _ :: s' => findall_list r s'
            end
  end.
Proof.
  unfold findall_list at 1. simpl.
  destruct (match_prefix r s) as [[m t] |] eqn:E.
  - apply match_prefix_some in E. destruct E as [-> Hm].
    apply Matches_nonempty in Hm. destruct m as [| c m]; [congruence |].
    f_equal. apply findall_from_enough; simpl; rewrite ?length_app; simpl; lia.
  - destruct s as [| c s']; reflexivity.
Qed.

(** Every text in the result is an accepted piece of the input. *)
Lemma findall_list_In r : forall n s m,
  length s < n -> In m (findall_list r s) ->
  Matches r m /\ exists pre post, s = pre ++ m ++ post.
Proof.
  induction n as [| n IH]; intros s m Hn Hin; [lia |].
  rewrite findall_list_step in Hin.
  destruct (match_prefix r s) as [[u t] |] eqn:E.
  - apply match_prefix_some in E. destruct E as [-> Hu].
    destruct Hin as [<- | Hin].
    + split; [exact Hu |]. now exists [], t.
    + pose proof (Matches_nonempty _ _ Hu) as Hne.
      destruct u as [| c u]; [congruence |].
      destruct (IH t m) as (Hm & pre & post & ->); [| exact Hin |].
      * simpl in Hn. rewrite length_app in Hn. lia.
      * split; [exact Hm |]. exists ((c :: u) ++ pre), post.
        now rewrite <- app_assoc.
  - destruct s as [| c s']; [contradiction |].
    destruct (IH s' m) as (Hm & pre & post & ->); [simpl in Hn; lia | exact Hin |].
    split; [exact Hm |]. now exists (c :: pre), post.
Qed.

(** The result is empty exactly when no piece of the input is accepted. *)
Lemma findall_list_nil r : forall s,
  findall_list r s = [] <->
  (forall pre m post, s = pre ++ m ++ post -> ~ Matches r m).
Proof.
  induction s as [| c s IH]; rewrite findall_list_step.
  - destruct (match_prefix r []) as [[u t] |] eqn:E.
    + split; [discriminate |]. intros H. exfalso.
      apply match_prefix_some in E. destruct E as [Hs Hu].
      apply (H [] u t); [exact Hs | exact Hu].
    + split; [| reflexivity]. intros _ pre m post Hs Hm.
      apply Matches_nonempty in Hm. symmetry in Hs.
      apply app_eq_nil in Hs. destruct Hs as [_ Hs].
      apply app_eq_nil in Hs. tauto.
  - destruct (match_prefix r (c :: s)) as [[u t] |] eqn:E.
    + split; [discriminate |]. intros H. exfalso.
      apply match_prefix_some in E. destruct E as [Hs Hu].
      apply (H [] u t); [exact Hs | exact Hu].
    + rewrite IH. split.
      * intros H pre m post Hs Hm. destruct pre as [| c' pre].
        -- simpl in Hs. rewrite match_prefix_none in E.
           exact (E _ _ Hs Hm).
        -- injection Hs as _ Hs. exact (H _ _ _ Hs Hm).
      * intros H pre m post Hs. apply (H (c :: pre) m post).
        now rewrite Hs.
Qed.

End MatcherFacts.

(** ** The conversion to binary64 is correctly rounded *)

Import Binary64.

Section Binary64Facts.

Local Open Scope Z_scope.

Lemma round_half_even_spec (n d : Z) :
  0 <= n -> 0 < d ->
  Z.abs (2 * (round_half_even n d * d - n)) <= d /\
  n / d <= round_half_even n d <= n / d + 1 /\
  (Z.abs (2 * (round_half_even n d * d - n)) = d ->
   Z.even (round_half_even n d) = true).
Proof.
  intros Hn Hd. unfold round_half_even. cbv zeta.
  pose proof (Z.div_mod n d ltac:(lia)) as E.
  pose proof (Z.mod_pos_bound n d Hd) as B.
  set (q := n / d) in *. set (r := n mod d) in *. clearbody q r.
  subst n.
  destruct (Z.compare_spec (2 * r) d) as [C | C | C].
  - destruct (Z.even q) eqn:Ev;
      (split; [apply Z.abs_le; lia | split; [lia |]]); intros _.
    + exact Ev.
    + rewrite Z.add_1_r, Z.even_succ, <- Z.negb_even, Ev. reflexivity.
  - split; [apply Z.abs_le; lia | split; [lia |]]. intros A. exfalso.
    replace (2 * (q * d - (d * q + r))) with (- (2 * r)) in A by ring.
    rewrite Z.abs_opp, Z.abs_eq in A by lia. lia.
  - split; [apply Z.abs_le; lia | split; [lia |]]. intros A. exfalso.
    replace (2 * ((q + 1) * d - (d * q + r))) with (2 * (d - r)) in A by ring.
    rewrite Z.abs_eq in A by lia. lia.
Qed.

Lemma scaled_pos (num den e : Z) :
  0 < num -> 0 < den ->
  0 < fst (scaled num den e) /\ 0 < snd (scaled num den e).
Proof.
  intros Hn Hd. unfold scaled. destruct (Z.leb_spec 0 e); simpl.
  - split; [lia |]. apply Z.mul_pos_pos; [lia |]. apply Z.pow_pos_nonneg; lia.
  - split; [| lia]. apply Z.mul_pos_pos; [lia |]. apply Z.pow_pos_nonneg; lia.
Qed.

(** Raising the exponent by [k] divides the fraction by [2 ^ k]. *)
Lemma scaled_shift (num den e k : Z) :
  0 <= k ->
  fst (scaled num den e) * snd (scaled num den (e + k)) =
  fst (scaled num den (e + k)) * snd (scaled num den e) * 2 ^ k.
Proof.
  intros Hk. unfold scaled.
  destruct (Z.leb_spec 0 e), (Z.leb_spec 0 (e + k)); simpl; try lia.
  - rewrite Z.pow_add_r by lia. ring.
  - replace (2 ^ k) with (2 ^ (- e) * 2 ^ (e + k))
      by (rewrite <- Z.pow_add_r by lia; f_equal; lia).
    ring.
  - replace (2 ^ (- e)) with (2 ^ (- (e + k)) * 2 ^ k)
      by (rewrite <- Z.pow_add_r by lia; f_equal; lia).
    ring.
Qed.

Lemma pow2_pos (k : Z) : 0 <= k -> 0 < 2 ^ k.
Proof. intros. apply Z.pow_pos_nonneg; lia. Qed.

(** With the first guess of the exponent the fraction lies between
    [2 ^ 51] and [2 ^ 53]. *)
Lemma scaled_first_guess (num den : Z) :
  0 < num -> 0 < den ->
  let e0 := Z.log2 num - Z.log2 den - 52 in
  2 ^ 51 * snd (scaled num den e0) <= fst (scaled num den e0) /\
  fst (scaled num den e0) < 2 ^ 53 * snd (scaled num den e0).
Proof.
  intros Hn Hd e0.
  pose proof (Z.log2_spec num Hn) as [Ha1 Ha2].
  pose proof (Z.log2_spec den Hd) as [Hb1 Hb2].
  pose proof (Z.log2_nonneg num) as Ha0.
  pose proof (Z.log2_nonneg den) as Hb0.
  set (a := Z.log2 num) in *. set (b := Z.log2 den) in *.
  clearbody a b.
  unfold scaled. destruct (Z.leb_spec 0 e0) as [He | He]; cbn [fst snd].
  - assert (Ea : a = b + 52 + e0) by (unfold e0; lia).
    rewrite Ea in Ha1, Ha2.
    replace (Z.succ (b + 52 + e0)) with (b + 53 + e0) in Ha2 by lia.
    rewrite !Z.pow_add_r in Ha1, Ha2 by lia.
    rewrite Z.pow_succ_r in Hb2 by lia.
    pose proof (pow2_pos b Hb0). pose proof (pow2_pos e0 He).
    set (X := 2 ^ b) in *. set (Y := 2 ^ e0) in *. clearbody X Y.
    change (2 ^ 53) with (2 * 2 ^ 52) in *.
    change (2 ^ 52) with (2 * 2 ^ 51) in *.
    set (K := 2 ^ 51) in *. assert (0 < K) by reflexivity. clearbody K.
    assert (F1 : K * (den * Y) <= K * (2 * X * Y))
      by (apply Z.mul_le_mono_nonneg_l; nia).
    assert (F2 : K * (X * Y) <= K * (den * Y))
      by (apply Z.mul_le_mono_nonneg_l; nia).
    split; lia.
  - assert (Ea : a + - e0 = b + 52) by (unfold e0; lia).
    assert (Ha1' : 2 ^ (b + 52) <= num * 2 ^ (- e0)).
    { rewrite <- Ea, Z.pow_add_r by lia.
      apply Z.mul_le_mono_nonneg_r; [apply Z.lt_le_incl, pow2_pos; lia | lia]. }
    assert (Ha2' : num * 2 ^ (- e0) < 2 ^ (b + 53)).
    { replace (b + 53) with (Z.succ a + - e0) by lia.
      rewrite Z.pow_add_r by lia.
      apply Z.mul_lt_mono_pos_r; [apply pow2_pos; lia | lia]. }
    rewrite Z.pow_add_r in Ha1', Ha2' by lia.
    rewrite Z.pow_succ_r in Hb2 by lia.
    pose proof (pow2_pos b Hb0).
    set (X := 2 ^ b) in *. set (N := num * 2 ^ (- e0)) in *. clearbody X N.
    change (2 ^ 53) with (2 * 2 ^ 52) in *.
    change (2 ^ 52) with (2 * 2 ^ 51) in *.
    set (K := 2 ^ 51) in *. assert (0 < K) by reflexivity. clearbody K.
    assert (F1 : K * den <= K * (2 * X))
      by (apply Z.mul_le_mono_nonneg_l; lia).
    assert (F2 : K * X <= K * den)
      by (apply Z.mul_le_mono_nonneg_l; lia).
    split; lia.
Qed.

Lemma div_lt_inv (a b q : Z) : 0 < b -> a / b < q -> a < b * q.
Proof.
  intros Hb H. destruct (Z.lt_ge_cases a (b * q)) as [L | G]; [exact L |].
  pose proof (Z.div_le_lower_bound a b q Hb G). lia.
Qed.

(** Cancelling a positive factor. *)
Lemma mul_lt_cancel (x y p : Z) : 0 < p -> x * p < y * p -> x < y.
Proof. intros Hp H. nia. Qed.

Lemma mul_le_cancel (x y p : Z) : 0 < p -> x * p <= y * p -> x <= y.
Proof. intros Hp H. nia. Qed.

(** The exponent leaves at most 53 bits, and exactly 53 unless it is
    the smallest one. *)
Lemma exponent_spec (num den : Z) :
  0 < num -> 0 < den ->
  let e := exponent num den in
  -1074 <= e /\
  fst (scaled num den e) < 2 ^ 53 * snd (scaled num den e) /\
  (2 ^ 52 * snd (scaled num den e) <= fst (scaled num den e) \/ e = -1074).
Proof.
  intros Hn Hd.
  pose proof (scaled_first_guess num den Hn Hd) as G. cbv zeta in G.
  unfold exponent.
  set (e0 := Z.log2 num - Z.log2 den - 52) in *. clearbody e0.
  assert (N : exists e1,
             (if fst (scaled num den e0) / snd (scaled num den e0) <? 2 ^ 52
              then e0 - 1 else e0) = e1 /\
             2 ^ 52 * snd (scaled num den e1) <= fst (scaled num den e1) /\
             fst (scaled num den e1) < 2 ^ 53 * snd (scaled num den e1)).
  { destruct (scaled_pos num den e0 Hn Hd) as [P0 Q0].
    destruct G as [G1 G2].
    destruct (Z.ltb_spec (fst (scaled num den e0) / snd (scaled num den e0))
                         (2 ^ 52)) as [L | L].
    - exists (e0 - 1). split; [reflexivity |].
      apply div_lt_inv in L; [| exact Q0].
      destruct (scaled_pos num den (e0 - 1) Hn Hd) as [P1 Q1].
      pose proof (scaled_shift num den (e0 - 1) 1 ltac:(lia)) as S.
      replace (e0 - 1 + 1) with e0 in S by lia.
      change (2 ^ 1) with 2 in S.
      set (n0 := fst (scaled num den e0)) in *.
      set (d0 := snd (scaled num den e0)) in *.
      set (n1 := fst (scaled num den (e0 - 1))) in *.
      set (d1 := snd (scaled num den (e0 - 1))) in *.
      clearbody n0 d0 n1 d1.
      change (2 ^ 53) with (2 * 2 ^ 52) in *.
      change (2 ^ 52) with (2 * 2 ^ 51) in *.
      set (K := 2 ^ 51) in *. assert (0 < K) by reflexivity. clearbody K.
      split.
      + apply (mul_le_cancel _ _ d0 Q0).
        assert (K * d0 * (2 * d1) <= n0 * (2 * d1))
          by (apply Z.mul_le_mono_nonneg_r; lia).
        lia.
      + apply (mul_lt_cancel _ _ d0 Q0).
        assert (n0 * (2 * d1) < d0 * (2 * K) * (2 * d1))
          by (apply Z.mul_lt_mono_pos_r; lia).
        lia.
    - exists e0. split; [reflexivity |]. split; [| exact G2].
      pose proof (Z.mul_div_le (fst (scaled num den e0))
                    (snd (scaled num den e0)) Q0) as M.
      assert (snd (scaled num den e0) * 2 ^ 52 <=
              snd (scaled num den e0) *
              (fst (scaled num den e0) / snd (scaled num den e0)))
        by (apply Z.mul_le_mono_nonneg_l; lia).
      lia. }
  destruct (scaled num den e0) as [n0 d0]. cbn [fst snd] in N.
  destruct N as (e1 & -> & N1 & N2).
  destruct (Z.max_spec e1 (-1074)) as [[Hlt ->] | [Hge ->]].
  - split; [lia |]. split; [| now right].
    destruct (scaled_pos num den e1 Hn Hd) as [P1 Q1].
    destruct (scaled_pos num den (-1074) Hn Hd) as [P Q].
    pose proof (scaled_shift num den e1 (-1074 - e1) ltac:(lia)) as S.
    replace (e1 + (-1074 - e1)) with (-1074) in S by lia.
    pose proof (pow2_pos (-1074 - e1) ltac:(lia)) as Pk.
    set (k2 := 2 ^ (-1074 - e1)) in *.
    set (n1 := fst (scaled num den e1)) in *.
    set (d1 := snd (scaled num den e1)) in *.
    set (n := fst (scaled num den (-1074))) in *.
    set (d := snd (scaled num den (-1074))) in *.
    clearbody k2 n1 d1 n d.
    set (K := 2 ^ 53) in *. assert (0 < K) by reflexivity. clearbody K.
    apply (mul_lt_cancel _ _ d1 Q1).
    assert (n * d1 <= n * d1 * k2) by nia.
    assert (n1 * d < K * d1 * d) by (apply Z.mul_lt_mono_pos_r; lia).
    lia.
  - split; [lia |]. split; [exact N2 | now left].
Qed.

(** The conversion is correctly rounded. *)
Lemma binary64_rounds (num den : Z) :
  0 <= num -> 0 < den -> rounds_to num den (binary64 num den).
Proof.
  intros Hn Hd. unfold binary64.
  destruct (Z.eqb_spec num 0) as [-> | Hnz].
  - exists 0, (-1074). split; [vm_compute; reflexivity |].
    split; [split; [lia | apply Z.lt_le_incl; reflexivity] |].
    split; [lia |]. split; [now right |]. split; [lia |].
    unfold scaled. cbn [Z.leb Z.compare fst snd]. rewrite !Z.mul_0_l.
    simpl. split; [lia | reflexivity].
  - assert (Hpos : 0 < num) by lia.
    pose proof (exponent_spec num den Hpos Hd) as (He & Hup & Hlow).
    set (e := exponent num den) in *. clearbody e.
    rewrite (surjective_pairing (scaled num den e)).
    destruct (scaled_pos num den e Hpos Hd) as [Pn Pd].
    pose proof (round_half_even_spec (fst (scaled num den e))
                  (snd (scaled num den e)) ltac:(lia) Pd)
      as (Hr & (Hm1 & Hm2) & Hev).
    set (m := round_half_even (fst (scaled num den e))
                              (snd (scaled num den e))) in *.
    clearbody m.
    assert (Hd53 : fst (scaled num den e) / snd (scaled num den e) < 2 ^ 53)
      by (apply Z.div_lt_upper_bound; lia).
    assert (Hd0 : 0 <= fst (scaled num den e) / snd (scaled num den e))
      by (apply Z.div_pos; lia).
    destruct ((0 <=? e) && (2 ^ 1024 <=? m * 2 ^ e)) eqn:T.
    + apply andb_true_iff in T. destruct T as [T1 T2].
      apply Z.leb_le in T1. apply Z.leb_le in T2.
      unfold scaled in Hr, Hup, Hlow. apply Z.leb_le in T1 as T1'.
      rewrite T1' in Hr, Hup, Hlow. cbn [fst snd] in Hr, Hup, Hlow.
      apply Z.abs_le in Hr.
      destruct (Z.le_gt_cases e 971) as [Le | Ge].
      * assert (E971 : e = 971).
        { destruct (Z.le_gt_cases e 970) as [L0 | G0]; [| lia].
          exfalso.
          pose proof (Z.pow_le_mono_r 2 e 970 ltac:(lia) L0) as Pw.
          pose proof (pow2_pos e T1) as Pe.
          assert (m * 2 ^ e <= 2 ^ 53 * 2 ^ 970).
          { apply Z.mul_le_mono_nonneg; lia. }
          change (2 ^ 53 * 2 ^ 970) with (2 ^ 1023) in H.
          assert (2 ^ 1023 < 2 ^ 1024) by reflexivity. lia. }
        subst e. cbn [rounds_to].
        assert (Em : m = 2 ^ 53).
        { change (2 ^ 1024) with (2 ^ 53 * 2 ^ 971) in T2.
          assert (0 < 2 ^ 971) by reflexivity.
          apply mul_le_cancel in T2; [lia | assumption]. }
        subst m.
        change (2 ^ 1024 - 2 ^ 970) with ((2 * 2 ^ 53 - 1) * 2 ^ 970).
        change (2 ^ 971) with (2 * 2 ^ 970) in Hr.
        set (P := 2 ^ 970) in *. set (M := 2 ^ 53) in *.
        assert (0 < P) by reflexivity. clearbody P M. nia.
      * cbn [rounds_to]. destruct Hlow as [Hlow | ->]; [| lia].
        pose proof (Z.pow_le_mono_r 2 972 e ltac:(lia) ltac:(lia)) as Pw.
        assert (2 ^ 52 * (den * 2 ^ 972) <= 2 ^ 52 * (den * 2 ^ e)).
        { apply Z.mul_le_mono_nonneg_l; [apply Z.lt_le_incl; reflexivity |].
          apply Z.mul_le_mono_nonneg_l; lia. }
        assert (E : 2 ^ 52 * (den * 2 ^ 972) = 2 ^ 1024 * den).
        { rewrite Z.mul_assoc, (Z.mul_comm (2 ^ 52) den), <- Z.mul_assoc.
          change (2 ^ 52 * 2 ^ 972) with (2 ^ 1024). ring. }
        assert (0 < 2 ^ 970) by reflexivity.
        set (A := 2 ^ 1024) in *. set (B := 2 ^ 970) in *.
        clearbody A B. nia.
    + exists m, e. split; [reflexivity |].
      split; [lia |]. split; [exact He |].
      split; [| split; [| split; [exact Hr | exact Hev]]].
      * destruct Hlow as [Hlow | ->]; [left | now right].
        assert (2 ^ 52 <= fst (scaled num den e) / snd (scaled num den e));
          [| lia].
        apply Z.div_le_lower_bound; lia.
      * intros E0. apply andb_false_iff in T. destruct T as [T | T].
        -- apply Z.leb_gt in T. lia.
        -- apply Z.leb_gt in T. exact T.
Qed.



End Binary64Facts.

(** ** Texts accepted by the mileage pattern *)

Lemma Matches_plus_class (p : ascii -> bool) (u : list ascii) :
  Matches (Plus (Class p)) u -> u <> [] /\ Forall (fun c => p c = true) u.
Proof.
  intros H. remember (Plus (Class p)) as r eqn:Hr.
  induction H as [q c Hc | r1 r2 u v _ _ _ _ | r u Hu _ | r u v Hu _ Hv IHv];
    try discriminate; injection Hr as ->.
  - inversion Hu; subst. split; [discriminate | now constructor].
  - inversion Hu; subst. split; [discriminate |].
    constructor; [assumption |]. now apply IHv.
Qed.

(** A match of [\d+\.\d+] is digits, a dot, digits. *)
Lemma Matches_pattern (m : list ascii) :
  Matches pattern m ->
  exists a b, m = a ++ "."%char :: b /\ a <> [] /\ b <> [] /\
              all_digits a /\ all_digits b.
Proof.
  unfold pattern. intros H.
  inversion H as [| r1 r2 a v Ha Hv | |]; subst.
  inversion Hv as [| r1 r2 d b Hd Hb | |]; subst.
  inversion Hd as [p c Hc | | |]; subst.
  apply Matches_plus_class in Ha. apply Matches_plus_class in Hb.
  unfold is_char in Hc. apply Ascii.eqb_eq in Hc. subst c.
  exists a, b. simpl. tauto.
Qed.

Lemma digit_not_dot (c : ascii) : is_digit c = true -> is_char "." c = false.
Proof.
  unfold is_char. destruct (Ascii.eqb "." c) eqn:E; [| reflexivity].
  apply Ascii.eqb_eq in E. subst c. discriminate.
Qed.

Lemma split_dot_digits (a b : list ascii) :
  all_digits a -> split_dot (a ++ "."%char :: b) = Some (a, b).
Proof.
  induction 1 as [| c a Hc _ IH]; [reflexivity |].
  cbn [app split_dot]. rewrite (digit_not_dot _ Hc), IH. reflexivity.
Qed.

Lemma digits_from_total (l : list ascii) :
  all_digits l -> forall acc, exists n, digits_from acc l = Some n.
Proof.
  induction 1 as [| c l Hc _ IH]; intros acc; simpl.
  - now exists acc.
  - rewrite Hc. apply IH.
Qed.

Lemma decimal_total (l : list ascii) :
  l <> [] -> all_digits l -> exists n, decimal l = Some n.
Proof.
  intros Hne Hl. destruct l as [| c l]; [congruence |].
  unfold decimal. now apply digits_from_total.
Qed.

Lemma string_of_list_ascii_app (a b : list ascii) :
  string_of_list_ascii (a ++ b) =
  (string_of_list_ascii a ++ string_of_list_ascii b)%string.
Proof.
  induction a as [| c a IH]; simpl; [reflexivity | now rewrite IH].
Qed.

(** [float] never raises on a match of the pattern: it reads the digits
    before and after the dot and rounds the decimal they denote. *)
Lemma float_of_match_rounds (m : list ascii) :
  Matches pattern m ->
  exists a b na nb f,
    m = a ++ "."%char :: b /\
    decimal a = Some na /\ decimal b = Some nb /\
    float (string_of_list_ascii m) = Ret f /\
    rounds_to (Z.of_N na * 10 ^ Z.of_nat (length b) + Z.of_N nb)
              (10 ^ Z.of_nat (length b)) f.
Proof.
  intros H. apply Matches_pattern in H.
  destruct H as (a & b & -> & Ha & Hb & Da & Db).
  destruct (decimal_total _ Ha Da) as [na Hna].
  destruct (decimal_total _ Hb Db) as [nb Hnb].
  exists a, b, na, nb. eexists. repeat split; try eassumption.
  - unfold float. rewrite list_ascii_of_string_of_list_ascii.
    rewrite (split_dot_digits a b Da), Hna, Hnb. reflexivity.
  - apply binary64_rounds.
    + apply Z.add_nonneg_nonneg; [| lia].
      apply Z.mul_nonneg_nonneg; [lia |]. apply Z.pow_nonneg. lia.
    + apply Z.pow_pos_nonneg; lia.
Qed.

Lemma float_of_match (m : list ascii) :
  Matches pattern m -> exists f, float (string_of_list_ascii m) = Ret f.
Proof.
  intros H. destruct (float_of_match_rounds m H) as (a & b & na & nb & f & H').
  exists f. tauto.
Qed.

(** [re.findall] on strings: every result is an accepted piece of the
    input. *)
Lemma findall_In (r : regex ascii) (s m : string) :
  In m (findall r s) ->
  Matches r (list_ascii_of_string m) /\
  exists pre post, s = (pre ++ m ++ post)%string.
Proof.
  unfold findall. intros H. apply in_map_iff in H.
  destruct H as (l & <- & Hl).
  apply findall_list_In with (n := S (length (list_ascii_of_string s))) in Hl;
    [| lia].
  destruct Hl as (Hm & pre & post & Hs).
  rewrite list_ascii_of_string_of_list_ascii. split; [exact Hm |].
  exists (string_of_list_ascii pre), (string_of_list_ascii post).
  rewrite <- !string_of_list_ascii_app, <- Hs.
  now rewrite string_of_list_ascii_of_string.
Qed.

(** No result exactly when no piece of the input is accepted. *)
Lemma findall_nil (r : regex ascii) (s : string) :
  findall r s = [] <->
  (forall pre m post, s = (pre ++ m ++ post)%string ->
                      ~ Matches r (list_ascii_of_string m)).
Proof.
  unfold findall. split.
  - intros H pre m post -> Hm. apply map_eq_nil in H.
    rewrite findall_list_nil in H.
    apply (H (list_ascii_of_string pre) (list_ascii_of_string m)
             (list_ascii_of_string post)); [| exact Hm].
    rewrite <- (list_ascii_of_string_of_list_ascii
                  (list_ascii_of_string pre ++ _)).
    now rewrite !string_of_list_ascii_app, !string_of_list_ascii_of_string.
  - intros H. replace (findall_list r (list_ascii_of_string s)) with (@nil (list ascii));
      [reflexivity |].
    symmetry. apply findall_list_nil. intros pre m post Hs Hm.
    apply (H (string_of_list_ascii pre) (string_of_list_ascii m)
             (string_of_list_ascii post)).
    + rewrite <- !string_of_list_ascii_app, <- Hs.
      now rewrite string_of_list_ascii_of_string.
    + now rewrite list_ascii_of_string_of_list_ascii.
Qed.

(** ** return_mileage *)

(** 0.8 is not a binary64 number; the nearest one is
    3602879701896397 / 2^52. *)
Example return_mileage_08_miles :
  return_mileage (VStr "0.8 miles") =
  Ret (VFloat (Fin (3602879701896397 # 4503599627370496))).
Proof. vm_compute. reflexivity. Qed.

(** A number too large for binary64 is read as inf. *)
Example return_mileage_overflow :
  return_mileage (VStr (nines 400 ++ ".5 miles")) = Ret (VFloat (Inf false)).
Proof. vm_compute. reflexivity. Qed.

Example return_mileage_two_numbers :
  return_mileage (VStr "0.8 miles, 1.25 km") = Ret VNone.
Proof. reflexivity. Qed.

Example return_mileage_missing :
  return_mileage (VFloat NaN) = Ret (VInt 0).
Proof. reflexivity. Qed.

(** The first rows of the Length Mileage column as the notebook prints
    them: 0.80, 1.00, 0.75, 0.50, 0.50. *)
Example length_mileage_head :
  mapM return_mileage
    [VStr "0.8 miles"; VStr "1.0 mile"; VStr "0.75 miles";
     VStr "0.5 miles"; VStr "0.5 miles"] =
  Ret [VFloat (Fin (3602879701896397 # 4503599627370496)); VFloat (Fin 1);
       VFloat (Fin (3 # 4)); VFloat (Fin (1 # 2)); VFloat (Fin (1 # 2))].
Proof. vm_compute. reflexivity. Qed.

(** C1, as the claim states it, fails: "5 miles" is a string in which
    the pattern does not match, and on it the call reaches the end of
    the function body and returns None, not 0. *)
Lemma return_mileage_unmatched_not_0 :
  findall pattern "5 miles" = [] /\
  return_mileage (VStr "5 miles") = Ret VNone /\
  return_mileage (VStr "5 miles") <> Ret (VInt 0).
Proof.
  repeat split. discriminate.
Qed.

(** C1 (amended): for every input that is not a string return_mileage
    returns the fallback 0; for a string in which the pattern fails to
    match it returns None. *)
Theorem return_mileage_fallback (v : value)
  (H : isinstance_str v = false \/
       (exists s, v = VStr s /\ findall pattern s = [])) :
  return_mileage v = Ret (if isinstance_str v then VNone else VInt 0).
Proof.
  destruct H as [H | (s & -> & H)].
  - destruct v; try discriminate H; reflexivity.
  - simpl. rewrite H. reflexivity.
Qed.

Lemma return_mileage_fallback_witness :
  return_mileage (VFloat NaN) = Ret (VInt 0) /\
  return_mileage (VStr "5 miles") = Ret VNone.
Proof.
  split.
  - apply (return_mileage_fallback (VFloat NaN)). left. reflexivity.
  - apply (return_mileage_fallback (VStr "5 miles")). right.
    exists "5 miles"%string. split; reflexivity.
Defined.

(** C2: when the pattern has exactly one match in the string,
    return_mileage returns that match read as a float: the match is a
    piece of the input of the form digits "." digits, float does not
    raise on it, and the value returned is the decimal those digits
    denote, correctly rounded to binary64 (inf when it is too large). *)
Theorem return_mileage_single_match (s : string)
  (H : len (findall pattern s) = 1) :
  exists m a b na nb f,
    findall pattern s = [m] /\
    (exists pre post, s = (pre ++ m ++ post)%string) /\
    Matches pattern (list_ascii_of_string m) /\
    list_ascii_of_string m = a ++ "."%char :: b /\
    decimal a = Some na /\ decimal b = Some nb /\
    float m = Ret f /\
    rounds_to (Z.of_N na * 10 ^ Z.of_nat (length b) + Z.of_N nb)
              (10 ^ Z.of_nat (length b)) f /\
    return_mileage (VStr s) = Ret (VFloat f).
Proof.
  unfold len in H.
  destruct (findall pattern s) as [| m [| m' l]] eqn:E; try discriminate H.
  destruct (findall_In pattern s m) as (Hm & Hsub); [rewrite E; now left |].
  destruct (float_of_match_rounds _ Hm)
    as (a & b & na & nb & f & Hab & Hna & Hnb & Hf & Hr).
  rewrite string_of_list_ascii_of_string in Hf.
  exists m, a, b, na, nb, f. repeat split; try assumption.
  simpl. rewrite E. simpl. rewrite Hf. reflexivity.
Qed.

Lemma return_mileage_single_match_witness :
  (exists m a b na nb f,
     findall pattern "0.8 miles" = [m] /\
     (exists pre post, "0.8 miles"%string = (pre ++ m ++ post)%string) /\
     Matches pattern (list_ascii_of_string m) /\
     list_ascii_of_string m = a ++ "."%char :: b /\
     decimal a = Some na /\ decimal b = Some nb /\
     float m = Ret f /\
     rounds_to (Z.of_N na * 10 ^ Z.of_nat (length b) + Z.of_N nb)
               (10 ^ Z.of_nat (length b)) f /\
     return_mileage (VStr "0.8 miles") = Ret (VFloat f)) /\
  findall pattern "0.8 miles" = ["0.8"%string] /\
  decimal ["0"%char] = Some 0%N /\ decimal ["8"%char] = Some 8%N /\
  float "0.8" = Ret (Fin (3602879701896397 # 4503599627370496)) /\
  return_mileage (VStr "0.8 miles") =
    Ret (VFloat (Fin (3602879701896397 # 4503599627370496))).
Proof.
  split.
  - apply (return_mileage_single_match "0.8 miles"). reflexivity.
  - repeat split; vm_compute; reflexivity.
Defined.

(** C8: on a string in which the pattern matches zero times or more than
    once return_mileage falls through and returns None; the int 0 is
    returned exactly on the non-string branch. *)
Theorem return_mileage_falls_through (s : string)
  (H : len (findall pattern s) = 0 \/ 1 < len (findall pattern s)) :
  return_mileage (VStr s) = Ret VNone /\
  (forall v, return_mileage v = Ret (VInt 0) <-> isinstance_str v = false).
Proof.
  split.
  - simpl. destruct (Nat.eqb_spec (len (findall pattern s)) 1) as [E | _];
      [lia | reflexivity].
  - intros v. split.
    + destruct v as [| b | z | f | t]; try reflexivity.
      simpl. destruct (Nat.eqb (len (findall pattern t)) 1); [| discriminate].
      destruct (item0 (findall pattern t)) as [m |]; [| discriminate].
      simpl. destruct (float m); discriminate.
    + destruct v; try discriminate; reflexivity.
Qed.

Lemma return_mileage_falls_through_witness :
  (return_mileage (VStr "5 miles") = Ret VNone /\
   (forall v, return_mileage v = Ret (VInt 0) <-> isinstance_str v = false)) /\
  (return_mileage (VStr "0.8 miles, 1.25 km") = Ret VNone /\
   (forall v, return_mileage v = Ret (VInt 0) <-> isinstance_str v = false)).
Proof.
  split.
  - apply (return_mileage_falls_through "5 miles"). left. reflexivity.
  - apply (return_mileage_falls_through "0.8 miles, 1.25 km"). right.
    vm_compute. lia.
Defined.

Lemma return_mileage_returns (v : value) :
  exists w, return_mileage v = Ret w.
Proof.
  destruct v as [| b | z | f | s]; try (eexists; reflexivity).
  simpl. destruct (Nat.eqb_spec (len (findall pattern s)) 1) as [E | _];
    [| eexists; reflexivity].
  unfold len in E.
  destruct (findall pattern s) as [| m [| m' l]] eqn:F; try discriminate E.
  destruct (findall_In pattern s m) as (Hm & _); [rewrite F; now left |].
  destruct (float_of_match _ Hm) as [f Hq].
  rewrite string_of_list_ascii_of_string in Hq.
  simpl. rewrite Hq. eexists. reflexivity.
Qed.

(** ** The binary encoding *)

Lemma py_eq_str (v : value) (s : string) :
  py_eq v (VStr s) = true <-> v = VStr s.
Proof.
  destruct v as [| b | z | f | t]; simpl; try (split; discriminate).
  rewrite String.eqb_eq. split; [now intros -> | now intros [= ->]].
Qed.

Lemma Accessible_enc_cases (v : value) :
  (v = VStr "Y" /\ Accessible_enc v = VInt 1) \/
  (v <> VStr "Y" /\ Accessible_enc v = VInt 0).
Proof.
  unfold Accessible_enc. pose proof (py_eq_str v "Y") as P.
  destruct (py_eq v (VStr "Y")).
  - left. split; [now apply P | reflexivity].
  - right. split; [| reflexivity]. intros Hv. apply P in Hv. discriminate Hv.
Qed.

(** C9: the lambda maps exactly "Y" to 1 and every other value to 0,
    "N" and the missing values NaN and None among them; a missing
    Accessible entry is encoded as "N" is. *)
Theorem Accessible_enc_only_Y :
  (forall v, Accessible_enc v = VInt 1 <-> v = VStr "Y") /\
  (forall v, Accessible_enc v = VInt 0 <-> v <> VStr "Y") /\
  Accessible_enc (VStr "N") = VInt 0 /\
  Accessible_enc (VFloat NaN) = Accessible_enc (VStr "N") /\
  Accessible_enc VNone = Accessible_enc (VStr "N").
Proof.
  split; [| split; [| repeat split]].
  - intros v. destruct (Accessible_enc_cases v) as [[Hv E] | [Hv E]];
      rewrite E; split; try tauto; discriminate.
  - intros v. destruct (Accessible_enc_cases v) as [[Hv E] | [Hv E]];
      rewrite E; split; try tauto; discriminate.
Qed.

(** ** Equality of values and of labels *)

Lemma float_eq_sym (f g : pyfloat) : float_eq f g = float_eq g f.
Proof.
  destruct f as [| a | p], g as [| b | q]; simpl; try reflexivity.
  - now destruct a, b.
  - destruct (Qeq_bool p q) eqn:E, (Qeq_bool q p) eqn:E'; try reflexivity.
    + apply Qeq_bool_sym in E. congruence.
    + apply Qeq_bool_sym in E'. congruence.
Qed.

Lemma float_eq_trans (f g h : pyfloat) :
  float_eq f g = true -> float_eq g h = true -> float_eq f h = true.
Proof.
  destruct f as [| a | p], g as [| b | q], h as [| c | r]; simpl;
    try discriminate.
  - destruct a, b, c; simpl; congruence.
  - apply Qeq_bool_trans.
Qed.

Lemma py_eq_sym (a b : value) : py_eq a b = py_eq b a.
Proof.
  destruct a, b; cbn [py_eq as_number]; try reflexivity;
    try apply float_eq_sym.
  apply String.eqb_sym.
Qed.

Lemma py_eq_trans (a b c : value) :
  py_eq a b = true -> py_eq b c = true -> py_eq a c = true.
Proof.
  destruct a, b; cbn [py_eq as_number]; try discriminate;
    destruct c; cbn [py_eq as_number];
    try discriminate; try apply float_eq_trans; try reflexivity.
  rewrite !String.eqb_eq. congruence.
Qed.

Lemma py_eq_refl (v : value) : isna v = false -> py_eq v v = true.
Proof.
  destruct v as [| b | z | [| a | q] | s]; simpl; try discriminate; intros _;
    try reflexivity; try apply Qeq_bool_refl.
  - now destruct a.
  - apply String.eqb_refl.
Qed.

Lemma label_eq_refl (v : value) : label_eq v v = true.
Proof.
  unfold label_eq. destruct (isna v) eqn:E.
  - now rewrite orb_true_r.
  - now rewrite py_eq_refl.
Qed.

Lemma index_equals_refl (l : list value) : index_equals l l = true.
Proof.
  induction l as [| x l IH]; simpl; [reflexivity |].
  now rewrite label_eq_refl, IH.
Qed.

(** ** Adding a derived column *)

Lemma mapM_returns {A B : Type} (f : A -> outcome B) (l : list A) :
  (forall x, In x l -> exists y, f x = Ret y) ->
  exists ys, mapM f l = Ret ys /\ length ys = length l.
Proof.
  induction l as [| x l IH]; intros H.
  - exists []. split; reflexivity.
  - destruct (H x) as [y Hy]; [now left |].
    destruct IH as (ys & Hys & Hlen); [intros x' Hx'; apply H; now right |].
    exists (y :: ys). simpl. rewrite Hy. simpl. rewrite Hys. simpl.
    split; [reflexivity | now rewrite Hlen].
Qed.

Lemma lookup_app_new (name new : value) (vals : list value)
  (cols : list (value * list value)) (vs : list value) :
  lookup name cols = Some vs -> lookup name (cols ++ [(new, vals)]) = Some vs.
Proof.
  induction cols as [| c cols IH]; simpl; [discriminate |].
  destruct (is_label name c); [trivial | exact IH].
Qed.

Lemma setitem_same_index_new (df : DataFrame) (new : value) (vals : list value) :
  has_column new df = false ->
  setitem df new (mkSeries (index df) vals) =
  Ret (mkFrame (index df) (columns df ++ [(new, vals)])).
Proof.
  intros Hnew. unfold setitem. simpl s_index.
  assert (E : align (index df) (mkSeries (index df) vals) = Ret vals).
  { unfold align. simpl. now rewrite index_equals_refl. }
  unfold has_column in Hnew.
  destruct (index df) as [| i idx] eqn:Hidx; rewrite E; simpl;
    unfold set_column; now rewrite Hnew.
Qed.

(** C7: assigning the result of apply on an existing column [src] to a
    new column name [new] returns a frame with the same index (row count
    and row order kept), the same columns with the same values in the
    same order, and the new column appended after them with one value
    per row of [src]. *)
Theorem derived_column_frame (f : value -> outcome value) (src new : value)
  (df : DataFrame) (col : list value)
  (Hsrc : lookup src (columns df) = Some col)
  (Hnew : has_column new df = false)
  (Hf : forall v, In v col -> exists w, f v = Ret w) :
  exists vals,
    derive f src new df = Ret (mkFrame (index df) (columns df ++ [(new, vals)])) /\
    mapM f col = Ret vals /\
    length vals = length col /\
    (forall name vs, lookup name (columns df) = Some vs ->
                     lookup name (columns df ++ [(new, vals)]) = Some vs).
Proof.
  destruct (mapM_returns f col Hf) as (vals & Hvals & Hlen).
  exists vals. repeat split; try assumption.
  - assert (Hvals' : mapM (fun row => f row) col = Ret vals) by exact Hvals.
    unfold derive, getitem. rewrite Hsrc. simpl.
    unfold apply. simpl. rewrite Hvals'. simpl.
    now apply setitem_same_index_new.
  - intros name vs. apply lookup_app_new.
Qed.

Lemma derived_column_frame_witness :
  (exists vals,
     add_length_mileage hiking_head =
       Ret (mkFrame (index hiking_head)
                    (columns hiking_head ++ [(VStr "Length Mileage", vals)])) /\
     mapM return_mileage
       [VStr "0.8 miles"; VStr "1.0 mile"; VStr "0.75 miles";
        VStr "0.5 miles"; VStr "0.5 miles"; VFloat NaN] = Ret vals /\
     length vals = 6 /\
     (forall name vs, lookup name (columns hiking_head) = Some vs ->
        lookup name (columns hiking_head ++ [(VStr "Length Mileage", vals)])
        = Some vs)) /\
  (exists vals,
     add_accessible_enc hiking_head =
       Ret (mkFrame (index hiking_head)
                    (columns hiking_head ++ [(VStr "Accessible_enc", vals)])) /\
     mapM (fun val => Ret (Accessible_enc val))
       [VStr "Y"; VStr "N"; VStr "N"; VStr "N"; VStr "N"; VFloat NaN] = Ret vals /\
     length vals = 6 /\
     (forall name vs, lookup name (columns hiking_head) = Some vs ->
        lookup name (columns hiking_head ++ [(VStr "Accessible_enc", vals)])
        = Some vs)).
Proof.
  split.
  - apply (derived_column_frame return_mileage (VStr "Length")
             (VStr "Length Mileage") hiking_head).
    + reflexivity.
    + reflexivity.
    + intros v _. apply return_mileage_returns.
  - apply (derived_column_frame (fun val => Ret (Accessible_enc val))
             (VStr "Accessible") (VStr "Accessible_enc") hiking_head).
    + reflexivity.
    + reflexivity.
    + intros v _. eexists. reflexivity.
Defined.

(** ** Categories: distinct values, sorted *)

Lemma unique_In (x : value) (l : list value) : In x (unique l) -> In x l.
Proof.
  induction l as [| y l IH]; simpl; [trivial |].
  intros [-> | H]; [now left |].
  apply filter_In in H. right. apply IH, H.
Qed.

(** Every value that equals itself has a representative among the
    distinct values. *)
Lemma unique_covers (x : value) (l : list value) :
  In x l -> isna x = false ->
  exists c, In c (unique l) /\ py_eq x c = true.
Proof.
  intros Hin Hx. induction l as [| y l IH]; [contradiction |].
  simpl. destruct Hin as [-> | Hin].
  - exists x. split; [now left | now apply py_eq_refl].
  - destruct (IH Hin) as (c & Hc & Hxc).
    destruct (py_eq c y) eqn:Hcy.
    + exists y. split; [now left |]. now apply py_eq_trans with c.
    + exists c. split; [| exact Hxc]. right. apply filter_In.
      split; [exact Hc | now rewrite Hcy].
Qed.

Lemma filter_filter_length {A : Type} (p q : A -> bool) (l : list A) :
  length (filter p (filter q l)) <= length (filter p l).
Proof.
  induction l as [| x l IH]; simpl; [lia |].
  destruct (q x), (p x) eqn:Hp; simpl; rewrite ?Hp; simpl; lia.
Qed.

Lemma filter_none {A : Type} (p : A -> bool) (l : list A) :
  (forall x, In x l -> p x = false) -> filter p l = [].
Proof.
  induction l as [| x l IH]; intros H; simpl; [reflexivity |].
  rewrite (H x) by now left. apply IH. intros y Hy. apply H. now right.
Qed.

(** No two of the distinct values are equal. *)
Lemma unique_at_most_once (x : value) (l : list value) :
  length (filter (py_eq x) (unique l)) <= 1.
Proof.
  induction l as [| y l IH]; simpl; [lia |].
  destruct (py_eq x y) eqn:Hxy.
  - simpl. rewrite filter_none; [simpl; lia |].
    intros z Hz. apply filter_In in Hz. destruct Hz as [_ Hzy].
    destruct (py_eq x z) eqn:Hxz; [| reflexivity].
    rewrite py_eq_sym in Hxz.
    rewrite (py_eq_trans z x y Hxz Hxy) in Hzy. discriminate Hzy.
  - pose proof (filter_filter_length (py_eq x)
                  (fun z => negb (py_eq z y)) (unique l)). lia.
Qed.

Lemma filter_some_length {A : Type} (p : A -> bool) (l : list A) (c : A) :
  In c l -> p c = true -> 1 <= length (filter p l).
Proof.
  intros Hin Hp.
  assert (H : In c (filter p l)) by (apply filter_In; now split).
  destruct (filter p l); [contradiction | simpl; lia].
Qed.

Lemma insert_sorted_perm (x : value) (l : list value) :
  Permutation (insert_sorted x l) (x :: l).
Proof.
  induction l as [| y l IH]; simpl; [reflexivity |].
  destruct (value_leb x y); [reflexivity |].
  rewrite IH. apply perm_swap.
Qed.

Lemma sort_values_perm (l : list value) : Permutation (sort_values l) l.
Proof.
  induction l as [| x l IH]; simpl; [reflexivity |].
  rewrite insert_sorted_perm. now constructor.
Qed.

Lemma filter_length_perm {A : Type} (p : A -> bool) (l l' : list A) :
  Permutation l l' -> length (filter p l) = length (filter p l').
Proof.
  induction 1 as [| x l l' _ IH | x y l | l l' l'' _ IH1 _ IH2]; simpl.
  - reflexivity.
  - destruct (p x); simpl; now rewrite IH.
  - destruct (p x), (p y); reflexivity.
  - now rewrite IH1.
Qed.

(** A list with exactly one element passing [p] splits around it. *)
Lemma filter_one_split {A : Type} (p : A -> bool) (l : list A) :
  length (filter p l) = 1 ->
  exists l1 c l2, l = l1 ++ c :: l2 /\ p c = true /\
                  Forall (fun z => p z = false) (l1 ++ l2).
Proof.
  induction l as [| x l IH]; simpl; [discriminate |].
  destruct (p x) eqn:Hx; simpl; intros H.
  - exists [], x, l. repeat split; [exact Hx |]. simpl.
    apply Forall_forall. intros z Hz.
    destruct (p z) eqn:Hz'; [| reflexivity].
    pose proof (filter_some_length p l z Hz Hz'). lia.
  - destruct (IH H) as (l1 & c & l2 & -> & Hc & Hrest).
    exists (x :: l1), c, l2. repeat split; [exact Hc |].
    simpl. now constructor.
Qed.

Lemma categories_In (s : Series) (c : value) :
  In c (categories s) -> In c (s_values s) /\ isna c = false.
Proof.
  unfold categories. intros H.
  apply (Permutation_in _ (sort_values_perm _)) in H.
  apply unique_In, filter_In in H. destruct H as [H Hna].
  split; [exact H |]. now destruct (isna c).
Qed.

Lemma categories_once (s : Series) (v : value) :
  In v (s_values s) -> isna v = false ->
  length (filter (py_eq v) (categories s)) = 1.
Proof.
  intros Hin Hna. unfold categories.
  rewrite (filter_length_perm _ _ _ (sort_values_perm _)).
  set (l := filter (fun v => negb (isna v)) (s_values s)).
  assert (Hl : In v l) by (apply filter_In; split; [exact Hin | now rewrite Hna]).
  destruct (unique_covers v l Hl Hna) as (c & Hc & Hvc).
  pose proof (filter_some_length (py_eq v) (unique l) c Hc Hvc).
  pose proof (unique_at_most_once v l). lia.
Qed.

Lemma row_at_get_dummies (s : Series) (i : nat) (v : value) :
  nth_error (s_values s) i = Some v ->
  row_at i (get_dummies s) =
  map (fun c => (c, Some (indicator c v))) (categories s).
Proof.
  intros Hv. unfold row_at, get_dummies. simpl. rewrite map_map.
  apply map_ext. intros c. simpl. now rewrite nth_error_map, Hv.
Qed.

Lemma indicator_zeros (v : value) (l : list value) :
  Forall (fun z => py_eq v z = false) l ->
  map (fun c => (c, Some (indicator c v))) l =
  map (fun c => (c, Some (VInt 0))) l.
Proof.
  induction 1 as [| z l Hz _ IH]; simpl; [reflexivity |].
  unfold indicator at 1. now rewrite Hz, IH.
Qed.

(** C5: get_dummies gives one column per distinct non-missing value of
    the series (every column is named by such a value, and a non-missing
    value equals the name of exactly one column); in a row whose value
    is non-missing that column holds 1 and every other column holds 0. *)
Theorem get_dummies_one_hot (s : Series) (i : nat) (v : value)
  (Hv : nth_error (s_values s) i = Some v) (Hna : isna v = false) :
  labels (get_dummies s) = categories s /\
  Forall (fun c => In c (s_values s) /\ isna c = false) (categories s) /\
  exists before c after,
    categories s = before ++ c :: after /\
    py_eq v c = true /\
    Forall (fun b => py_eq v b = false) (before ++ after) /\
    row_at i (get_dummies s) =
      map (fun b => (b, Some (VInt 0))) before ++
      (c, Some (VInt 1)) :: map (fun a => (a, Some (VInt 0))) after.
Proof.
  split; [| split].
  - unfold labels, get_dummies. simpl. rewrite map_map. simpl. apply map_id.
  - apply Forall_forall. intros c. apply categories_In.
  - pose proof (nth_error_In _ _ Hv) as Hin.
    destruct (filter_one_split _ _ (categories_once s v Hin Hna))
      as (l1 & c & l2 & Hcat & Hc & Hrest).
    exists l1, c, l2. repeat split; try assumption.
    rewrite (row_at_get_dummies s i v Hv), Hcat, map_app. simpl.
    apply Forall_app in Hrest. destruct Hrest as [H1 H2].
    rewrite (indicator_zeros v l1 H1), (indicator_zeros v l2 H2).
    unfold indicator. now rewrite Hc.
Qed.

Lemma get_dummies_one_hot_witness :
  labels (get_dummies color_ex) = categories color_ex /\
  Forall (fun c => In c (s_values color_ex) /\ isna c = false)
         (categories color_ex) /\
  exists before c after,
    categories color_ex = before ++ c :: after /\
    py_eq (VStr "red") c = true /\
    Forall (fun b => py_eq (VStr "red") b = false) (before ++ after) /\
    row_at 1 (get_dummies color_ex) =
      map (fun b => (b, Some (VInt 0))) before ++
      (c, Some (VInt 1)) :: map (fun a => (a, Some (VInt 0))) after.
Proof.
  apply (get_dummies_one_hot color_ex 1 (VStr "red")); reflexivity.
Defined.

Example get_dummies_color_ex :
  get_dummies color_ex =
  mkFrame [VInt 0; VInt 1; VInt 2; VInt 3]
    [ (VStr "blue", [VInt 1; VInt 0; VInt 0; VInt 0]);
      (VStr "green", [VInt 0; VInt 0; VInt 1; VInt 0]);
      (VStr "red", [VInt 0; VInt 1; VInt 0; VInt 1]) ].
Proof. reflexivity. Qed.

(** ** Correlation after dropping a column *)

Section CorrFacts.

Variable pearson : list value -> list value -> value.
Variable keep : value -> bool.

Lemma labels_filter (cols : list (value * list value)) :
  map fst (filter (fun c => keep (fst c)) cols) = filter keep (map fst cols).
Proof.
  induction cols as [| c cols IH]; simpl; [reflexivity |].
  destruct (keep (fst c)); simpl; now rewrite IH.
Qed.

(** Restricting a column of coefficients to the kept rows is computing
    it over the kept columns. *)
Lemma select_rows_map (g : value * list value -> value)
  (cols : list (value * list value)) :
  select_rows keep (map fst cols) (map g cols) = map g (filter (fun c => keep (fst c)) cols).
Proof.
  induction cols as [| c cols IH]; simpl; [reflexivity |].
  destruct (keep (fst c)); simpl; now rewrite IH.
Qed.

Lemma corr_columns_filter (all cols : list (value * list value)) :
  map (fun b => (fst b, map (fun a => pearson (snd a) (snd b)) (filter (fun c => keep (fst c)) all)))
      (filter (fun c => keep (fst c)) cols) =
  map (fun c => (fst c, select_rows keep (map fst all) (snd c)))
      (filter (fun c => keep (fst c))
              (map (fun b => (fst b, map (fun a => pearson (snd a) (snd b)) all))
                   cols)).
Proof.
  induction cols as [| b cols IH]; simpl; [reflexivity |].
  destruct (keep (fst b)); simpl; [| exact IH].
  rewrite IH. f_equal. f_equal. symmetry.
  apply (select_rows_map (fun a => pearson (snd a) (snd b))).
Qed.

Lemma corr_submatrix (df : DataFrame) :
  corr pearson (mkFrame (index df) (filter (fun c => keep (fst c)) (columns df))) =
  submatrix keep (corr pearson df).
Proof.
  unfold corr, submatrix, labels. simpl. f_equal.
  - apply labels_filter.
  - apply corr_columns_filter.
Qed.

End CorrFacts.

(** C6: for a column [c] of the frame, dropping [c] and then computing
    corr() gives the original corr() table restricted, rows and columns,
    to the labels other than [c]: the coefficients of the retained
    pairs are those of the original table. *)
Theorem corr_commutes_with_drop (pearson : list value -> list value -> value)
  (c : value) (df : DataFrame) (Hc : has_column c df = true) :
  drop_then_corr pearson c df =
  Ret (submatrix (fun l => negb (label_eq l c)) (corr pearson df)).
Proof.
  unfold drop_then_corr, drop. rewrite Hc. simpl. f_equal.
  apply (corr_submatrix pearson (fun l => negb (label_eq l c)) df).
Qed.

Lemma corr_commutes_with_drop_witness :
  drop_then_corr same_column (VStr "Flavanoids") wine_sample =
  Ret (submatrix (fun l => negb (label_eq l (VStr "Flavanoids")))
                 (corr same_column wine_sample)).
Proof.
  apply (corr_commutes_with_drop same_column (VStr "Flavanoids") wine_sample).
  reflexivity.
Defined.

(** ** The two binary encodings *)

Lemma mapM_pure {A B : Type} (g : A -> outcome B) (h : A -> B) (l : list A) :
  (forall x, In x l -> g x = Ret (h x)) -> mapM g l = Ret (map h l).
Proof.
  induction l as [| x l IH]; intros H; simpl; [reflexivity |].
  rewrite (H x) by now left. simpl.
  rewrite IH by (intros y Hy; apply H; now right). reflexivity.
Qed.

Lemma unique_YN (col : list value) :
  Forall is_YN col ->
  unique col = [] \/ unique col = [VStr "N"] \/ unique col = [VStr "Y"] \/
  unique col = [VStr "N"; VStr "Y"] \/ unique col = [VStr "Y"; VStr "N"].
Proof.
  induction 1 as [| x col Hx _ IH]; [now left |].
  simpl.
  destruct Hx as [-> | ->];
    destruct IH as [-> | [-> | [-> | [-> | ->]]]]; simpl; tauto.
Qed.

Lemma YN_strings (col : list value) :
  Forall is_YN col -> forallb isinstance_str col = true.
Proof.
  induction 1 as [| x col [-> | ->] _ IH]; simpl; auto.
Qed.

(** With "N" present the classes are ["N"] or ["N"; "Y"], and they are
    ["N"] only when the column holds nothing else. *)
Lemma classes_YN (col : list value) :
  Forall is_YN col -> In (VStr "N") col ->
  (sort_values (unique col) = [VStr "N"] /\ Forall (eq (VStr "N")) col) \/
  sort_values (unique col) = [VStr "N"; VStr "Y"].
Proof.
  intros Hcol HN.
  destruct (unique_covers (VStr "N") col HN eq_refl) as (c & Hc & Hnc).
  rewrite py_eq_sym in Hnc. apply py_eq_str in Hnc. subst c.
  destruct (unique_YN col Hcol) as [E | [E | [E | [E | E]]]];
    rewrite E in *.
  - contradiction.
  - left. split; [reflexivity |]. apply Forall_forall. intros v Hv.
    assert (Hna : isna v = false).
    { rewrite Forall_forall in Hcol. now destruct (Hcol v Hv) as [-> | ->]. }
    destruct (unique_covers v col Hv Hna) as (c & Hc' & Hvc).
    rewrite E in Hc'. destruct Hc' as [<- | []].
    apply py_eq_str in Hvc. now subst v.
  - destruct Hc as [Hc | []]. discriminate Hc.
  - right. reflexivity.
  - right. reflexivity.
Qed.

(** The first rows of Accessible_enc and Accessible_enc_le as the
    notebook prints them. *)
Example accessible_head :
  map Accessible_enc [VStr "Y"; VStr "N"; VStr "N"; VStr "N"; VStr "N"] =
    [VInt 1; VInt 0; VInt 0; VInt 0; VInt 0] /\
  fit_transform [VStr "Y"; VStr "N"; VStr "N"; VStr "N"; VStr "N"] =
    Ret [VInt 1; VInt 0; VInt 0; VInt 0; VInt 0].
Proof. split; reflexivity. Qed.

(** C10, as the claim states it, fails: on a column that holds only "Y"
    the only class is "Y", which LabelEncoder numbers 0, while the
    lambda encodes every "Y" as 1. *)
Lemma encodings_differ_on_all_Y :
  Forall is_YN [VStr "Y"; VStr "Y"] /\
  map Accessible_enc [VStr "Y"; VStr "Y"] = [VInt 1; VInt 1] /\
  fit_transform [VStr "Y"; VStr "Y"] = Ret [VInt 0; VInt 0] /\
  fit_transform [VStr "Y"; VStr "Y"] <>
    Ret (map Accessible_enc [VStr "Y"; VStr "Y"]).
Proof.
  repeat split.
  - repeat constructor; now right.
  - discriminate.
Qed.

(** C10 (amended): for every column whose values are all drawn from
    "N" and "Y" and in which "N" occurs (or which is empty), the lambda
    encoding and LabelEncoder().fit_transform produce the same sequence
    of 0/1 codes. *)
Theorem encodings_agree (col : list value)
  (Hcol : Forall is_YN col) (HN : col = [] \/ In (VStr "N") col) :
  fit_transform col = Ret (map Accessible_enc col).
Proof.
  destruct HN as [-> | HN]; [reflexivity |].
  unfold fit_transform, fit, uniform.
  rewrite (YN_strings col Hcol). simpl. unfold transform. simpl.
  apply mapM_pure. intros v Hv.
  destruct (classes_YN col Hcol HN) as [[E Hall] | E]; rewrite E.
  - rewrite Forall_forall in Hall. rewrite <- (Hall v Hv). reflexivity.
  - rewrite Forall_forall in Hcol.
    destruct (Hcol v Hv) as [-> | ->]; reflexivity.
Qed.

Lemma encodings_agree_witness :
  fit_transform [VStr "Y"; VStr "N"; VStr "N"; VStr "N"; VStr "N"] =
  Ret (map Accessible_enc [VStr "Y"; VStr "N"; VStr "N"; VStr "N"; VStr "N"]).
Proof.
  apply (encodings_agree [VStr "Y"; VStr "N"; VStr "N"; VStr "N"; VStr "N"]).
  - repeat constructor; (now left) || (now right).
  - right. simpl. tauto.
Defined.


(** ** More on return_mileage and the pattern *)



Lemma has_window_intro (pre post : list ascii) (c1 c2 : ascii) :
  is_digit c1 = true -> is_digit c2 = true ->
  has_window (pre ++ c1 :: "."%char :: c2 :: post) = true.
Proof.
  intros H1 H2. induction pre as [| c pre IH].
  - simpl. rewrite H1, H2. reflexivity.
  - change ((c :: pre) ++ c1 :: "."%char :: c2 :: post)
      with (c :: (pre ++ c1 :: "."%char :: c2 :: post)).
    destruct (pre ++ c1 :: "."%char :: c2 :: post) as [| d [| e t]] eqn:E;
      try discriminate IH.
    cbn [has_window]. cbn [has_window] in IH. rewrite IH.
    apply orb_true_r.
Qed.

Lemma has_window_elim (l : list ascii) :
  has_window l = true ->
  exists pre c1 c2 post,
    l = pre ++ c1 :: "."%char :: c2 :: post /\
    is_digit c1 = true /\ is_digit c2 = true.
Proof.
  induction l as [| c1 l IH]; [discriminate |].
  destruct l as [| d [| c2 t]]; try discriminate.
  cbn [has_window]. intros H. apply orb_true_iff in H. destruct H as [H | H].
  - apply andb_true_iff in H. destruct H as [H H2].
    apply andb_true_iff in H. destruct H as [H1 Hd].
    unfold is_char in Hd. apply Ascii.eqb_eq in Hd. subst d.
    now exists [], c1, c2, t.
  - destruct (IH H) as (pre & a & b & post & E & Ha & Hb).
    exists (c1 :: pre), a, b, post. simpl. now rewrite E.
Qed.

Lemma Matches_window (c1 c2 : ascii) :
  is_digit c1 = true -> is_digit c2 = true ->
  Matches pattern [c1; "."%char; c2].
Proof.
  intros H1 H2. unfold pattern.
  apply (MCat (Plus (Class is_digit)) _ [c1] ["."%char; c2]).
  - apply MPlus1. now constructor.
  - apply (MCat (Class (is_char ".")) _ ["."%char] [c2]).
    + constructor. reflexivity.
    + apply MPlus1. now constructor.
Qed.

Lemma Matches_has_window (pre m post : list ascii) :
  Matches pattern m -> has_window (pre ++ m ++ post) = true.
Proof.
  intros H. apply Matches_pattern in H.
  destruct H as (a & b & -> & Ha & Hb & Da & Db).
  destruct (exists_last Ha) as (a' & c1 & ->).
  destruct b as [| c2 b']; [congruence |].
  apply Forall_app in Da. destruct Da as [_ Da]. inversion Da; subst.
  inversion Db; subst.
  replace (pre ++ ((a' ++ [c1]) ++ "."%char :: c2 :: b') ++ post)
    with ((pre ++ a') ++ c1 :: "."%char :: c2 :: (b' ++ post)).
  - now apply has_window_intro.
  - rewrite <- !app_assoc. reflexivity.
Qed.

Lemma findall_list_window (l : list ascii) :
  findall_list pattern l = [] <-> has_window l = false.
Proof.
  rewrite findall_list_nil. split.
  - intros H. destruct (has_window l) eqn:W; [| reflexivity].
    destruct (has_window_elim l W) as (pre & c1 & c2 & post & -> & H1 & H2).
    exfalso. apply (H pre [c1; "."%char; c2] post); [reflexivity |].
    now apply Matches_window.
  - intros W pre m post -> Hm.
    rewrite (Matches_has_window pre m post Hm) in W. discriminate W.
Qed.

Lemma findall_window (s : string) :
  findall pattern s = [] <-> has_window (list_ascii_of_string s) = false.
Proof.
  rewrite <- findall_list_window. unfold findall. split.
  - apply map_eq_nil.
  - now intros ->.
Qed.

(** X2: re.findall finds no match of the pattern exactly when the string
    has no digit, dot, digit in a row, and return_mileage then returns
    None: a whole-number length such as "4 miles" yields no mileage. *)
Theorem return_mileage_needs_decimal (s : string) :
  (findall pattern s = [] <-> has_window (list_ascii_of_string s) = false) /\
  (has_window (list_ascii_of_string s) = false ->
   return_mileage (VStr s) = Ret VNone).
Proof.
  split; [apply findall_window |].
  intros W. apply findall_window in W. simpl. now rewrite W.
Qed.

Lemma return_mileage_needs_decimal_witness :
  return_mileage (VStr "4 miles") = Ret VNone.
Proof.
  apply (proj2 (return_mileage_needs_decimal "4 miles")). reflexivity.
Defined.


(** 45.6 is not a binary64 number; the nearest one is
    6417629469002957 / 2^47. *)
Example temperature_num_45_6 :
  temperature_num "temperature:45.6 F" =
  Ret (Fin (6417629469002957 # 140737488355328)).
Proof. vm_compute. reflexivity. Qed.

Example temperature_num_overflow :
  temperature_num ("temperature:" ++ nines 400 ++ ".5 F") = Ret (Inf false).
Proof. vm_compute. reflexivity. Qed.

(** *** The match is greedy *)








(** ** Labels *)

Lemma py_eq_na_r (a b : value) :
  py_eq a b = true -> isna b = true -> isna a = true.
Proof.
  destruct b as [| b | z | [| n | q] | s]; simpl; try discriminate;
    destruct a as [| a | y | [| m | p] | r]; simpl; try discriminate;
    reflexivity.
Qed.

Lemma label_eq_sym (a b : value) : label_eq a b = label_eq b a.
Proof.
  unfold label_eq. now rewrite py_eq_sym, andb_comm.
Qed.

Lemma label_eq_trans (a b c : value) :
  label_eq a b = true -> label_eq b c = true -> label_eq a c = true.
Proof.
  unfold label_eq. intros H1 H2.
  apply orb_true_iff in H1. apply orb_true_iff in H2. apply orb_true_iff.
  destruct H1 as [H1 | H1], H2 as [H2 | H2].
  - left. now apply py_eq_trans with b.
  - apply andb_true_iff in H2. destruct H2 as [Hb Hc].
    right. now rewrite (py_eq_na_r a b H1 Hb), Hc.
  - apply andb_true_iff in H1. destruct H1 as [Ha Hb].
    rewrite py_eq_sym in H2.
    right. now rewrite (py_eq_na_r c b H2 Hb), Ha.
  - apply andb_true_iff in H1. apply andb_true_iff in H2.
    right. destruct H1 as [-> _], H2 as [_ ->]. reflexivity.
Qed.

(** Two labels that are not the same label name different columns. *)
Lemma is_label_other (a b : value) (c : value * list value) :
  label_eq a b = false -> is_label a c = true -> is_label b c = false.
Proof.
  unfold is_label. intros Hab Ha.
  destruct (label_eq (fst c) b) eqn:Hb; [| reflexivity].
  rewrite label_eq_sym in Ha.
  now rewrite (label_eq_trans a (fst c) b Ha Hb) in Hab.
Qed.

(** ** Frames stay well formed *)

Lemma mapM_length {A B : Type} (f : A -> outcome B) : forall (l : list A) ys,
  mapM f l = Ret ys -> length ys = length l.
Proof.
  induction l as [| x l IH]; simpl; intros ys H.
  - now injection H as <-.
  - destruct (f x) as [y |]; [| discriminate H]. simpl in H.
    destruct (mapM f l) as [ys' |]; [| discriminate H]. simpl in H.
    injection H as <-. simpl. now rewrite (IH ys').
Qed.

Lemma lookup_In (name : value) (cols : list (value * list value))
  (vs : list value) :
  lookup name cols = Some vs ->
  exists c, In c cols /\ snd c = vs /\ is_label name c = true.
Proof.
  induction cols as [| c cols IH]; simpl; [discriminate |].
  destruct (is_label name c) eqn:E.
  - intros [= <-]. exists c. auto.
  - intros H. destruct (IH H) as (c' & Hin & Hs & Hl). exists c'. auto.
Qed.

Lemma index_equals_length : forall a b,
  index_equals a b = true -> length a = length b.
Proof.
  induction a as [| x a IH]; destruct b as [| y b]; simpl;
    try discriminate; [reflexivity |].
  intros H. apply andb_true_iff in H. destruct H as [_ H].
  now rewrite (IH b H).
Qed.

Lemma set_column_rows (n : nat) (name : value) (vals : list value)
  (cols : list (value * list value)) :
  forallb (fun c => Nat.eqb (length (snd c)) n) cols = true ->
  length vals = n ->
  forallb (fun c => Nat.eqb (length (snd c)) n)
          (set_column name vals cols) = true.
Proof.
  intros Hc Hv. unfold set_column.
  destruct (existsb (is_label name) cols).
  - rewrite forallb_forall in *. intros c Hin. apply in_map_iff in Hin.
    destruct Hin as (c0 & <- & Hin0).
    destruct (is_label name c0); [simpl; now apply Nat.eqb_eq | now apply Hc].
  - rewrite forallb_app, Hc. simpl. rewrite andb_true_r. now apply Nat.eqb_eq.
Qed.

Lemma setitem_well_formed (df df' : DataFrame) (name : value) (s : Series) :
  well_formed df = true ->
  length (s_values s) = length (s_index s) ->
  setitem df name s = Ret df' ->
  well_formed df' = true.
Proof.
  unfold well_formed, setitem. intros Hdf Hs H.
  assert (Hal : forall vals, align (index df) s = Ret vals ->
                             length vals = length (index df)).
  { unfold align. intros vals Ha.
    destruct (index_equals (s_index s) (index df)) eqn:E.
    - injection Ha as <-. rewrite Hs. now apply index_equals_length.
    - destruct (has_duplicates (s_index s)); [discriminate Ha |].
      injection Ha as <-. apply length_map. }
  assert (Hdefault : forall d,
            (vals <- align (index df) s ;;
             Ret (mkFrame (index df) (set_column name vals (columns df)))) = Ret d ->
            forallb (fun c => Nat.eqb (length (snd c)) (length (index d)))
                    (columns d) = true).
  { intros d Hd. destruct (align (index df) s) as [vals |] eqn:Ha;
      [| discriminate Hd].
    simpl in Hd. injection Hd as <-. simpl.
    apply set_column_rows; [exact Hdf | now apply Hal]. }
  destruct (index df) as [| i idx] eqn:Hidx.
  - destruct (s_index s) as [| j jdx] eqn:Hsi.
    + apply Hdefault. exact H.
    + injection H as <-. simpl. apply set_column_rows; [| exact Hs].
      apply forallb_forall. intros c Hin. apply in_map_iff in Hin.
      destruct Hin as (c0 & <- & _). simpl. rewrite length_map.
      apply Nat.eqb_refl.
  - apply Hdefault. exact H.
Qed.

(** X5: assigning a derived column keeps the frame well formed (one
    value per row in every column), whether the name is new or names a
    column that is replaced. *)
Theorem derive_keeps_well_formed (f : value -> outcome value) (src new : value)
  (df df' : DataFrame)
  (Hwf : well_formed df = true)
  (Hrun : derive f src new df = Ret df') :
  well_formed df' = true /\ index df' = index df.
Proof.
  unfold derive, getitem in Hrun.
  destruct (lookup src (columns df)) as [col |] eqn:Hsrc; [| discriminate Hrun].
  simpl in Hrun. unfold apply in Hrun. simpl in Hrun.
  destruct (mapM (fun row => f row) col) as [vals |] eqn:Hvals;
    [| discriminate Hrun].
  simpl in Hrun. split.
  - apply (setitem_well_formed df df' new (mkSeries (index df) vals) Hwf);
      [| exact Hrun].
    simpl. rewrite (mapM_length _ col vals Hvals).
    destruct (lookup_In src (columns df) col Hsrc) as (c & Hin & <- & _).
    unfold well_formed in Hwf. rewrite forallb_forall in Hwf.
    now apply Nat.eqb_eq, Hwf.
  - unfold setitem in Hrun. simpl s_index in Hrun.
    destruct (index df) as [| i idx] eqn:Hidx.
    + destruct (align [] (mkSeries [] vals)); [| discriminate Hrun].
      simpl in Hrun. now injection Hrun as <-.
    + destruct (align (i :: idx) (mkSeries (i :: idx) vals));
        [| discriminate Hrun].
      simpl in Hrun. now injection Hrun as <-.
Qed.

Lemma derive_keeps_well_formed_witness :
  exists df',
    add_length_mileage hiking_head = Ret df' /\
    well_formed df' = true /\ index df' = index hiking_head.
Proof.
  eexists. split; [reflexivity |].
  apply (derive_keeps_well_formed return_mileage (VStr "Length")
           (VStr "Length Mileage") hiking_head); reflexivity.
Defined.

Lemma setitem_same_index (df : DataFrame) (name : value) (vals : list value) :
  setitem df name (mkSeries (index df) vals) =
  Ret (mkFrame (index df) (set_column name vals (columns df))).
Proof.
  unfold setitem. simpl s_index.
  assert (E : align (index df) (mkSeries (index df) vals) = Ret vals).
  { unfold align. simpl. now rewrite index_equals_refl. }
  destruct (index df) as [| i idx] eqn:Hidx; rewrite E; reflexivity.
Qed.

Lemma set_column_again (name : value) (vals : list value)
  (cols : list (value * list value)) :
  existsb (is_label name) cols = false ->
  set_column name vals (cols ++ [(name, vals)]) = cols ++ [(name, vals)].
Proof.
  intros Hnew. unfold set_column.
  rewrite existsb_app. simpl. unfold is_label at 2. simpl.
  rewrite label_eq_refl, orb_true_r. simpl.
  rewrite map_app. simpl. unfold is_label at 2. simpl.
  rewrite label_eq_refl. f_equal.
  rewrite <- (map_id cols) at 2. apply map_ext_in. intros c Hc.
  destruct (is_label name c) eqn:E; [| reflexivity].
  assert (existsb (is_label name) cols = true)
    by (apply existsb_exists; now exists c).
  congruence.
Qed.

(** X6: running a derived-column cell a second time changes nothing:
    the column it added is replaced by the same values. *)
Theorem derive_twice (f : value -> outcome value) (src new : value)
  (df : DataFrame) (col : list value)
  (Hsrc : lookup src (columns df) = Some col)
  (Hnew : has_column new df = false)
  (Hf : forall v, In v col -> exists w, f v = Ret w) :
  exists df1,
    derive f src new df = Ret df1 /\
    derive f src new df1 = Ret df1.
Proof.
  destruct (mapM_returns f col Hf) as (vals & Hvals & _).
  assert (Hvals' : mapM (fun row => f row) col = Ret vals) by exact Hvals.
  exists (mkFrame (index df) (columns df ++ [(new, vals)])). split.
  - unfold derive, getitem. rewrite Hsrc. simpl.
    unfold apply. simpl. rewrite Hvals'. simpl.
    now apply setitem_same_index_new.
  - unfold derive, getitem. simpl columns.
    rewrite (lookup_app_new src new vals (columns df) col Hsrc). simpl.
    unfold apply. simpl. rewrite Hvals'. simpl.
    pose proof (setitem_same_index
                  (mkFrame (index df) (columns df ++ [(new, vals)])) new vals)
      as E.
    cbn [index columns] in E. cbn [index columns]. rewrite E.
    now rewrite set_column_again.
Qed.

Lemma derive_twice_witness :
  exists df1,
    add_accessible_enc hiking_head = Ret df1 /\
    add_accessible_enc df1 = Ret df1.
Proof.
  apply (derive_twice (fun val => Ret (Accessible_enc val))
           (VStr "Accessible") (VStr "Accessible_enc") hiking_head
           [VStr "Y"; VStr "N"; VStr "N"; VStr "N"; VStr "N"; VFloat NaN]).
  - reflexivity.
  - reflexivity.
  - intros v _. eexists. reflexivity.
Defined.

(** ** Dropping and selecting columns *)

Lemma filter_negb_length {A : Type} (p : A -> bool) (l : list A) :
  length (filter p l) + length (filter (fun x => negb (p x)) l) = length l.
Proof.
  induction l as [| x l IH]; simpl; [reflexivity |].
  destruct (p x); simpl; lia.
Qed.

Lemma filter_twice {A : Type} (p q : A -> bool) (l : list A) :
  filter p (filter q l) = filter (fun x => q x && p x) l.
Proof.
  induction l as [| x l IH]; simpl; [reflexivity |].
  destruct (q x); simpl; [destruct (p x) |]; now rewrite IH.
Qed.

Lemma filter_all {A : Type} (p : A -> bool) (l : list A) :
  (forall x, In x l -> p x = true) -> filter p l = l.
Proof.
  intros H. apply forallb_filter_id. apply forallb_forall. exact H.
Qed.

Lemma lookup_dropped (c name : value) (cols : list (value * list value)) :
  label_eq name c = false ->
  lookup name (filter (fun x => negb (is_label c x)) cols) = lookup name cols.
Proof.
  intros Hn. induction cols as [| x cols IH]; simpl; [reflexivity |].
  destruct (is_label c x) eqn:Hc; simpl.
  - rewrite label_eq_sym in Hn.
    now rewrite (is_label_other c name x Hn Hc).
  - now rewrite IH.
Qed.

Lemma has_column_other (c name : value) (cols : list (value * list value)) :
  label_eq name c = false ->
  existsb (is_label name) (filter (fun x => negb (is_label c x)) cols) =
  existsb (is_label name) cols.
Proof.
  intros Hn. induction cols as [| x cols IH]; simpl; [reflexivity |].
  destruct (is_label c x) eqn:Hc; simpl.
  - rewrite label_eq_sym in Hn.
    now rewrite (is_label_other c name x Hn Hc).
  - now rewrite IH.
Qed.

Lemma dropped_is_gone (c : value) (cols : list (value * list value)) :
  existsb (is_label c) (filter (fun x => negb (is_label c x)) cols) = false.
Proof.
  induction cols as [| x cols IH]; simpl; [reflexivity |].
  destruct (is_label c x) eqn:Hc; simpl; [exact IH | now rewrite Hc].
Qed.

Lemma lookup_present (c : value) (cols : list (value * list value)) :
  existsb (is_label c) cols = true -> exists col, lookup c cols = Some col.
Proof.
  induction cols as [| x cols IH]; simpl; [discriminate |].
  destruct (is_label c x); [now exists (snd x) | exact IH].
Qed.

(** X7: splitting a frame into features and label, as
    [wine_X = wine.drop("Type", axis=1)] and [y = wine["Type"]] do,
    loses nothing when one column has the label's name: both parts keep
    the index, [y] holds that column, [X] has it no more and has one
    column less, and every other name finds in [X] what it finds in the
    frame. *)
Theorem X_y_split_lossless (c : value) (df : DataFrame)
  (Hone : length (filter (is_label c) (columns df)) = 1) :
  exists X y,
    split_X_y c df = Ret (X, y) /\
    index X = index df /\ s_index y = index df /\
    lookup c (columns df) = Some (s_values y) /\
    has_column c X = false /\
    S (length (columns X)) = length (columns df) /\
    (forall name, label_eq name c = false ->
                  lookup name (columns X) = lookup name (columns df)).
Proof.
  assert (Hc : has_column c df = true).
  { unfold has_column.
    destruct (filter (is_label c) (columns df)) as [| x l] eqn:E;
      [discriminate Hone |].
    assert (Hx : In x (filter (is_label c) (columns df)))
      by (rewrite E; now left).
    apply filter_In in Hx. apply existsb_exists. now exists x. }
  destruct (lookup_present c (columns df) Hc) as [col Hcol].
  exists (mkFrame (index df)
            (filter (fun x => negb (is_label c x)) (columns df))),
         (mkSeries (index df) col).
  unfold split_X_y, drop, getitem. rewrite Hc, Hcol. simpl.
  repeat split; try assumption.
  - apply dropped_is_gone.
  - pose proof (filter_negb_length (is_label c) (columns df)). lia.
  - intros name Hn. now apply lookup_dropped.
Qed.

Lemma X_y_split_lossless_witness :
  exists X y,
    split_X_y (VStr "category_desc") volunteer_sample = Ret (X, y) /\
    index X = index volunteer_sample /\ s_index y = index volunteer_sample /\
    lookup (VStr "category_desc") (columns volunteer_sample) = Some (s_values y) /\
    has_column (VStr "category_desc") X = false /\
    S (length (columns X)) = length (columns volunteer_sample) /\
    (forall name, label_eq name (VStr "category_desc") = false ->
                  lookup name (columns X) = lookup name (columns volunteer_sample)).
Proof.
  apply (X_y_split_lossless (VStr "category_desc") volunteer_sample).
  reflexivity.
Defined.

Lemma drop_each_raised (ls : list value) (e : exn) :
  fold_left (fun acc l => df' <- acc ;; drop l df') ls (Raise e) = Raise e.
Proof.
  induction ls as [| l ls IH]; simpl; [reflexivity | exact IH].
Qed.

Lemma drop_list_cons (l : value) (ls : list value) (df : DataFrame) :
  has_column l df = true ->
  negb (existsb (label_eq l) ls) = true ->
  drop_list (l :: ls) df =
  drop_list ls (mkFrame (index df)
                  (filter (fun c => negb (is_label l c)) (columns df))).
Proof.
  intros Hl Hd. apply negb_true_iff in Hd.
  assert (Hother : forall x, In x ls -> label_eq x l = false).
  { intros x Hx. rewrite label_eq_sym.
    destruct (label_eq l x) eqn:E; [| reflexivity].
    assert (existsb (label_eq l) ls = true)
      by (apply existsb_exists; now exists x).
    congruence. }
  unfold drop_list. simpl forallb. rewrite Hl. simpl.
  assert (Hhas : forallb (fun x => has_column x
                   (mkFrame (index df)
                      (filter (fun c => negb (is_label l c)) (columns df)))) ls
                 = forallb (fun x => has_column x df) ls).
  { clear Hd. induction ls as [| x ls IH]; simpl; [reflexivity |].
    unfold has_column at 1. simpl columns.
    rewrite (has_column_other l x (columns df)) by (apply Hother; now left).
    fold (has_column x df). f_equal. apply IH.
    intros y Hy. apply Hother. now right. }
  rewrite Hhas. destruct (forallb (fun x => has_column x df) ls);
    [| reflexivity].
  simpl. f_equal. f_equal. rewrite filter_twice. apply filter_ext.
  intros c. now rewrite negb_orb.
Qed.

(** X8: for labels that are pairwise different, dropping the list in one
    call, as [volunteer.drop([...], axis=1)] does, gives what dropping
    them one statement at a time gives, the KeyError for a label that
    names no column included. *)
Theorem drop_list_is_drop_each (ls : list value) (df : DataFrame)
  (Hd : distinct_labels ls = true) :
  drop_list ls df = drop_each ls df.
Proof.
  unfold drop_each. revert df Hd.
  induction ls as [| l ls IH]; intros df Hd.
  - unfold drop_list. simpl. rewrite filter_all by reflexivity.
    now destruct df.
  - simpl in Hd. apply andb_true_iff in Hd. destruct Hd as [Hl Hd].
    simpl fold_left. unfold drop at 2.
    destruct (has_column l df) eqn:Hc.
    + rewrite <- IH by exact Hd. now apply drop_list_cons.
    + rewrite drop_each_raised. unfold drop_list. simpl forallb.
      now rewrite Hc.
Qed.

Lemma drop_list_is_drop_each_witness :
  drop_list [VStr "Latitude"; VStr "Longitude"; VStr "locality"; VStr "postalcode"]
            volunteer_sample =
  drop_each [VStr "Latitude"; VStr "Longitude"; VStr "locality"; VStr "postalcode"]
            volunteer_sample /\
  drop_list [VStr "Type"] volunteer_sample =
  drop_each [VStr "Type"] volunteer_sample.
Proof.
  split.
  - apply (drop_list_is_drop_each
             [VStr "Latitude"; VStr "Longitude"; VStr "locality"; VStr "postalcode"]
             volunteer_sample). reflexivity.
  - apply (drop_list_is_drop_each [VStr "Type"] volunteer_sample). reflexivity.
Defined.

(** X9: selecting a list of columns and then dropping the first of them,
    as the cells that build [wine_subset] do, gives the selection of the
    other names, provided the dropped name is a column and is not among
    the others; a missing name among the others is the same KeyError on
    both sides. *)
Theorem select_then_drop_is_select (c : value) (rest : list value)
  (df : DataFrame)
  (Hc : has_column c df = true)
  (Hrest : forallb (fun n => negb (label_eq n c)) rest = true) :
  select_then_drop (c :: rest) c df = select rest df.
Proof.
  unfold select_then_drop, select. simpl forallb. rewrite Hc. simpl.
  destruct (forallb (fun n => has_column n df) rest); [| reflexivity].
  simpl. unfold drop, has_column. simpl columns. simpl index.
  assert (Hin : existsb (is_label c)
                  (filter (is_label c) (columns df) ++
                   flat_map (fun n => filter (is_label n) (columns df)) rest)
                = true).
  { rewrite existsb_app. apply orb_true_iff. left.
    unfold has_column in Hc. apply existsb_exists in Hc.
    destruct Hc as (x & Hx & Hl). apply existsb_exists. exists x.
    split; [| exact Hl]. apply filter_In. now split. }
  rewrite Hin. f_equal. f_equal. rewrite filter_app.
  rewrite filter_none.
  - simpl. apply filter_all. intros x Hx.
    apply in_flat_map in Hx. destruct Hx as (n & Hn & Hx).
    apply filter_In in Hx. destruct Hx as [_ Hx].
    rewrite forallb_forall in Hrest. specialize (Hrest n Hn).
    apply negb_true_iff in Hrest.
    now rewrite (is_label_other n c x Hrest Hx).
  - intros x Hx. apply filter_In in Hx. destruct Hx as [_ Hx].
    now rewrite Hx.
Qed.

Lemma select_then_drop_is_select_witness :
  select_then_drop
    [VStr "Flavanoids"; VStr "Total phenols"; VStr "Hue"]
    (VStr "Flavanoids") wine_sample =
  select [VStr "Total phenols"; VStr "Hue"] wine_sample.
Proof.
  apply (select_then_drop_is_select (VStr "Flavanoids")
           [VStr "Total phenols"; VStr "Hue"] wine_sample); reflexivity.
Defined.

(** ** Missing values under get_dummies *)

Lemma py_eq_missing (v c : value) :
  isna v = true -> isna c = false -> py_eq v c = false.
Proof.
  intros Hv Hc. destruct (py_eq v c) eqn:E; [| reflexivity].
  rewrite py_eq_sym in E. rewrite (py_eq_na_r c v E Hv) in Hc.
  discriminate Hc.
Qed.

(** X10: a row whose value is missing (None or NaN) has 0 in every
    column of get_dummies: a missing value is in no category.  Every
    column has one entry per value of the series. *)
Theorem get_dummies_missing_row (s : Series) (i : nat) (v : value)
  (Hv : nth_error (s_values s) i = Some v) (Hna : isna v = true) :
  row_at i (get_dummies s) = map (fun c => (c, Some (VInt 0))) (categories s) /\
  Forall (fun c => length (snd c) = length (s_values s))
         (columns (get_dummies s)).
Proof.
  split.
  - rewrite (row_at_get_dummies s i v Hv). apply indicator_zeros.
    apply Forall_forall. intros c Hc.
    apply categories_In in Hc. destruct Hc as [_ Hc].
    now apply py_eq_missing.
  - apply Forall_forall. intros c Hc. unfold get_dummies in Hc. simpl in Hc.
    apply in_map_iff in Hc. destruct Hc as (c0 & <- & _). simpl.
    apply length_map.
Qed.

Lemma get_dummies_missing_row_witness :
  row_at 1 (get_dummies color_missing) =
    map (fun c => (c, Some (VInt 0))) (categories color_missing) /\
  Forall (fun c => length (snd c) = length (s_values color_missing))
         (columns (get_dummies color_missing)).
Proof.
  apply (get_dummies_missing_row color_missing 1 (VFloat NaN)); reflexivity.
Defined.

(** ** LabelEncoder on a column of strings *)

Lemma position_spec (v : value) : forall (l : list value) (k : nat),
  position v l = Some k ->
  exists c, nth_error l k = Some c /\ py_eq v c = true.
Proof.
  induction l as [| x l IH]; simpl; intros k H; [discriminate H |].
  destruct (py_eq v x) eqn:E.
  - injection H as <-. now exists x.
  - destruct (position v l) as [j |]; [| discriminate H].
    injection H as <-. simpl. now apply IH.
Qed.

Lemma position_found (v c : value) (l : list value) :
  In c l -> py_eq v c = true -> exists k, position v l = Some k.
Proof.
  intros Hin Hc. induction l as [| x l IH]; [contradiction |].
  simpl. destruct (py_eq v x) eqn:E; [now exists 0 |].
  destruct Hin as [-> | Hin]; [congruence |].
  destruct (IH Hin) as [k ->]. now exists (S k).
Qed.

Lemma mapM_nth {A B : Type} (g : A -> outcome B) :
  forall (l : list A) (ys : list B) (i : nat) (x : A),
  mapM g l = Ret ys -> nth_error l i = Some x ->
  exists y, g x = Ret y /\ nth_error ys i = Some y.
Proof.
  induction l as [| a l IH]; intros ys i x H Hx.
  - destruct i; discriminate Hx.
  - simpl in H. destruct (g a) as [b |] eqn:Ga; [| discriminate H].
    simpl in H. destruct (mapM g l) as [bs |] eqn:M; [| discriminate H].
    simpl in H. injection H as <-.
    destruct i as [| i]; simpl in Hx.
    + injection Hx as <-. now exists b.
    + simpl. now apply (IH bs).
Qed.

(** X11: on a column of strings fit_transform never fails, gives one
    code per entry, and every code is the position of its label in
    classes_: reading classes_ at the code gives the label back, so
    different labels never share a code. *)
Theorem label_encoder_round_trip (y : list value)
  (Hstr : forallb isinstance_str y = true) :
  exists le codes,
    fit y = Ret le /\
    fit_transform y = Ret codes /\
    length codes = length y /\
    forall i v, nth_error y i = Some v ->
      exists k, nth_error codes i = Some (VInt (Z.of_nat k)) /\
                nth_error (classes_ le) k = Some v.
Proof.
  set (classes := sort_values (unique y)).
  set (g := fun v => match position v classes with
                     | Some i => Ret (VInt (Z.of_nat i))
                     | None => @Raise value ValueError
                     end).
  assert (Hfit : fit y = Ret (mkLabelEncoder classes)).
  { unfold fit, uniform. now rewrite Hstr. }
  assert (Hstr' : forall v, In v y -> exists s, v = VStr s).
  { rewrite forallb_forall in Hstr. intros v Hv. specialize (Hstr v Hv).
    destruct v; try discriminate Hstr. now eexists. }
  assert (Hpos : forall v, In v y -> exists k, position v classes = Some k).
  { intros v Hv. destruct (Hstr' v Hv) as [s ->].
    destruct (unique_covers (VStr s) y Hv eq_refl) as (c & Hc & Hvc).
    apply (position_found (VStr s) c); [| exact Hvc].
    apply (Permutation_in _ (Permutation_sym (sort_values_perm _)) Hc). }
  destruct (mapM_returns g y) as (codes & Hcodes & Hlen).
  { intros v Hv. unfold g. destruct (Hpos v Hv) as [k ->]. now eexists. }
  exists (mkLabelEncoder classes), codes.
  split; [exact Hfit |]. split; [| split; [exact Hlen |]].
  - unfold fit_transform. rewrite Hfit. exact Hcodes.
  - intros i v Hv.
    destruct (mapM_nth g y codes i v Hcodes Hv) as (code & Hg & Hcode).
    pose proof (nth_error_In _ _ Hv) as Hin.
    unfold g in Hg. destruct (position v classes) as [k |] eqn:P;
      [| discriminate Hg].
    injection Hg as <-. exists k. split; [exact Hcode |].
    destruct (position_spec v classes k P) as (c & Hc & Hvc).
    destruct (Hstr' v Hin) as [s ->].
    rewrite py_eq_sym in Hvc. apply py_eq_str in Hvc. subst c. exact Hc.
Qed.

Lemma label_encoder_round_trip_witness :
  exists le codes,
    fit [VStr "Y"; VStr "N"; VStr "N"] = Ret le /\
    fit_transform [VStr "Y"; VStr "N"; VStr "N"] = Ret codes /\
    length codes = 3 /\
    forall i v, nth_error [VStr "Y"; VStr "N"; VStr "N"] i = Some v ->
      exists k, nth_error codes i = Some (VInt (Z.of_nat k)) /\
                nth_error (classes_ le) k = Some v.
Proof.
  apply (label_encoder_round_trip [VStr "Y"; VStr "N"; VStr "N"]).
  reflexivity.
Defined.

(** ** Aggregate columns feed the aggregates after them *)

Lemma nth_map_seq {B : Type} (g : nat -> B) (n i : nat) (d : B) :
  i < n -> nth i (map g (seq 0 n)) d = g i.
Proof.
  intros Hi. rewrite (nth_indep _ d (g 0)) by (rewrite length_map, length_seq; lia).
  rewrite map_nth. now rewrite seq_nth.
Qed.

(** The numeric cells of a row once a numeric column is appended. *)
Lemma numeric_row_step (idx : list value) (cols : list (value * list value))
  (new : value) (g : nat -> value) (rowf : nat -> list value) :
  (forall i, i < length idx -> numeric_row i (mkFrame idx cols) = rowf i) ->
  (forall i, is_numeric (g i) = true) ->
  forall i, i < length idx ->
    numeric_row i (mkFrame idx (cols ++ [(new, map g (seq 0 (length idx)))])) =
    rowf i ++ [g i].
Proof.
  intros Hrow Hg i Hi. unfold numeric_row, numeric_columns in *.
  simpl columns in *. rewrite filter_app, map_app, (Hrow i Hi).
  f_equal. simpl.
  assert (Hn : forallb is_numeric (map g (seq 0 (length idx))) = true).
  { apply forallb_forall. intros v Hv. apply in_map_iff in Hv.
    destruct Hv as (j & <- & _). apply Hg. }
  rewrite Hn. simpl. now rewrite nth_map_seq.
Qed.

Lemma add_aggregate_step (agg : list value -> value) (idx : list value)
  (cols : list (value * list value)) (new : value) (rowf : nat -> list value) :
  (forall i, i < length idx -> numeric_row i (mkFrame idx cols) = rowf i) ->
  existsb (is_label new) cols = false ->
  setitem (mkFrame idx cols) new (aggregate_rows agg (mkFrame idx cols)) =
  Ret (mkFrame idx
         (cols ++ [(new, map (fun i => agg (rowf i)) (seq 0 (length idx)))])).
Proof.
  intros Hrow Hnew. unfold aggregate_rows. cbn [index].
  pose proof (setitem_same_index_new (mkFrame idx cols) new
                (map (fun i => agg (numeric_row i (mkFrame idx cols)))
                     (seq 0 (length idx))) Hnew) as E.
  cbn [index columns] in E. rewrite E. do 5 f_equal.
  apply map_ext_in. intros i Hi. apply in_seq in Hi.
  rewrite Hrow by lia. reflexivity.
Qed.

Lemma has_column_snoc (name new : value) (vals : list value)
  (cols : list (value * list value)) :
  existsb (is_label name) (cols ++ [(new, vals)]) =
  existsb (is_label name) cols || label_eq new name.
Proof.
  rewrite existsb_app. simpl. unfold is_label at 2. simpl.
  now rewrite orb_false_r.
Qed.

(** X12: the four aggregate statements run on the frame as it is at
    that moment, so each aggregate also takes in the aggregate columns
    added before it: "median" is the median of the numeric cells and the
    mean, "total" sums the cells, the mean and the median, and
    "fastest_time" is taken over all of these.  The frame keeps its
    index and its columns, and the four columns are appended in this
    order. *)
Theorem running_stats_feed_forward
  (mean median total fastest : list value -> value) (df : DataFrame)
  (Hmean : forall l, is_numeric (mean l) = true)
  (Hmedian : forall l, is_numeric (median l) = true)
  (Htotal : forall l, is_numeric (total l) = true)
  (H1 : has_column (VStr "mean") df = false)
  (H2 : has_column (VStr "median") df = false)
  (H3 : has_column (VStr "total") df = false)
  (H4 : has_column (VStr "fastest_time") df = false) :
  add_running_stats mean median total fastest df =
  Ret (mkFrame (index df)
               (columns df ++ stats_columns mean median total fastest df)).
Proof.
  destruct df as [idx cols]. unfold has_column in H1, H2, H3, H4.
  cbn [columns] in H1, H2, H3, H4.
  unfold add_running_stats, stats_columns. cbn [index columns].
  set (r := fun i => numeric_row i (mkFrame idx cols)).
  set (m := fun i => mean (r i)).
  set (d := fun i => median (r i ++ [m i])).
  set (t := fun i => total (r i ++ [m i; d i])).
  assert (R0 : forall i, i < length idx ->
                 numeric_row i (mkFrame idx cols) = r i) by reflexivity.
  rewrite (add_aggregate_step mean idx cols (VStr "mean") r R0 H1).
  cbn [bind]. fold m.
  pose proof (numeric_row_step idx cols (VStr "mean") m r R0
                (fun i => Hmean (r i))) as R1.
  rewrite (add_aggregate_step median idx _ (VStr "median")
             (fun i => r i ++ [m i]) R1)
    by (rewrite has_column_snoc, H2; reflexivity).
  cbn [bind]. fold d.
  assert (R2 : forall i, i < length idx ->
            numeric_row i (mkFrame idx
              ((cols ++ [(VStr "mean", map m (seq 0 (length idx)))]) ++
               [(VStr "median", map d (seq 0 (length idx)))])) =
            r i ++ [m i; d i]).
  { intros i Hi.
    rewrite (numeric_row_step idx _ (VStr "median") d _ R1
               (fun i => Hmedian (r i ++ [m i])) i Hi).
    now rewrite <- app_assoc. }
  rewrite (add_aggregate_step total idx _ (VStr "total")
             (fun i => r i ++ [m i; d i]) R2)
    by (rewrite !has_column_snoc, H3; reflexivity).
  cbn [bind]. fold t.
  assert (R3 : forall i, i < length idx ->
            numeric_row i (mkFrame idx
              (((cols ++ [(VStr "mean", map m (seq 0 (length idx)))]) ++
                [(VStr "median", map d (seq 0 (length idx)))]) ++
               [(VStr "total", map t (seq 0 (length idx)))])) =
            r i ++ [m i; d i; t i]).
  { intros i Hi.
    rewrite (numeric_row_step idx _ (VStr "total") t _ R2
               (fun i => Htotal (r i ++ [m i; d i])) i Hi).
    now rewrite <- app_assoc. }
  rewrite (add_aggregate_step fastest idx _ (VStr "fastest_time")
             (fun i => r i ++ [m i; d i; t i]) R3)
    by (rewrite !has_column_snoc, H4; reflexivity).
  f_equal. f_equal. now rewrite <- !app_assoc.
Qed.

Lemma exact_numeric :
  (forall l, is_numeric (exact_mean l) = true) /\
  (forall l, is_numeric (exact_median l) = true) /\
  (forall l, is_numeric (exact_sum l) = true).
Proof.
  split; [| split]; intros l.
  - unfold exact_mean. now destruct (numbers l).
  - unfold exact_median. destruct (q_sort (numbers l)); [reflexivity |].
    now destruct (Nat.even _).
  - reflexivity.
Qed.

Lemma running_stats_feed_forward_witness :
  add_running_stats exact_mean exact_median exact_sum exact_min
                    running_times_5k =
  Ret (mkFrame (index running_times_5k)
         (columns running_times_5k ++
          stats_columns exact_mean exact_median exact_sum exact_min
                        running_times_5k)).
Proof.
  apply (running_stats_feed_forward exact_mean exact_median exact_sum
           exact_min running_times_5k);
    try reflexivity; apply exact_numeric.
Defined.

(** The model on the notebook's data: the frame is the one the
    constructor builds, and in exact arithmetic the four columns are the
    numbers the notebook prints (19.36, 19.48, 135.64 and 18.3 in the
    first row). *)
Example running_times_table :
  DataFrame_of_dict running_dict = Ret running_times_5k /\
  stats_columns exact_mean exact_median exact_sum exact_min running_times_5k =
  let fl := map finite in
  [ (VStr "mean", fl [19.36; 17.08; 24.46; 21.60; 26.52; 30.44]%Q);
    (VStr "median", fl [19.48; 17.09; 24.53; 21.65; 26.61; 30.42]%Q);
    (VStr "total", fl [135.64; 119.57; 171.29; 151.25; 185.73; 213.06]%Q);
    (VStr "fastest_time", fl [18.3; 16.5; 23.5; 20.9; 25.8; 29.6]%Q) ].
Proof. split; vm_compute; reflexivity. Qed.

(** ** Running a drop a second time *)

(** X13: a cell that reassigns a frame to itself with a column dropped,
    as [wine_subset = wine_subset.drop("Flavanoids", axis=1)] does,
    cannot be run twice: after the first run no column has that name,
    and the second run raises KeyError. *)
Theorem drop_again_raises (c : value) (df X : DataFrame)
  (Hrun : drop c df = Ret X) :
  has_column c X = false /\ drop c X = Raise KeyError.
Proof.
  unfold drop in Hrun. destruct (has_column c df); [| discriminate Hrun].
  injection Hrun as <-.
  assert (H : has_column c
                (mkFrame (index df)
                   (filter (fun x => negb (is_label c x)) (columns df))) = false)
    by apply dropped_is_gone.
  split; [exact H |]. unfold drop. now rewrite H.
Qed.

Lemma drop_again_raises_witness :
  exists X,
    drop (VStr "Flavanoids") wine_sample = Ret X /\
    has_column (VStr "Flavanoids") X = false /\
    drop (VStr "Flavanoids") X = Raise KeyError.
Proof.
  eexists. split; [reflexivity |].
  apply (drop_again_raises (VStr "Flavanoids") wine_sample). reflexivity.
Defined.
